(** * QCNN tutorial notebook (tutorials/qcnn.ipynb): a shallow embedding

    The notebook builds an 8-qubit quantum convolutional neural network with
    the PennyLane library, trains it with a mean-squared-error loss and
    reports a test accuracy.  The Python functions of the notebook are
    embedded below under their own names:

      data_embedding, U_SU4, conv_layer1, conv_layer2, conv_layer3,
      QCNN_structure_without_pooling, QCNN, square_loss, cost, accuracy_test.

    Python floats are modelled by the real numbers of the Standard Library
    (exact arithmetic), Python exceptions by an error result. *)

From Stdlib Require Import Reals Lra Lia List Arith Bool ZArith Permutation.
Import ListNotations.

Local Open Scope R_scope.

(* ================================================================== *)
(** ** Results and Python list primitives *)
(* ================================================================== *)

(** The exceptions the modelled code can raise. *)
Inductive error : Type :=
| IndexError          (* list index out of range *)
| ZeroDivisionError   (* division by zero *)
| InvalidInputError   (* the embedding rejects its feature vector *)
| WireError           (* a gate addresses a wire the device does not have *)
| DeviceError.        (* state preparation after other operations *)

Inductive result (A : Type) : Type :=
| Ok (a : A)
| Err (e : error).
Arguments Ok {A} a.
Arguments Err {A} e.

Definition rbind {A B} (r : result A) (k : A -> result B) : result B :=
  match r with
  | Ok a => k a
  | Err e => Err e
  end.

(** [l[i]] for a non-negative index. *)
Definition getitem {A} (l : list A) (i : nat) : result A :=
  match nth_error l i with
  | Some a => Ok a
  | None => Err IndexError
  end.

(** [l[lo:hi]] for non-negative bounds: slicing clamps, it never raises. *)
Definition slice {A} (l : list A) (lo hi : nat) : list A :=
  firstn (hi - lo) (skipn lo l).

(** [range(start, stop, step)] for a positive step. *)
Definition range (start stop step : nat) : list nat :=
  map (fun k => (start + k * step)%nat)
      (seq 0 ((stop - start + (step - 1)) / step)).

(** [[f(x) for x in xs]] where [f] may raise. *)
Fixpoint list_comp {A B} (f : A -> result B) (xs : list A) : result (list B) :=
  match xs with
  | [] => Ok []
  | x :: xs' =>
      rbind (f x) (fun y => rbind (list_comp f xs') (fun ys => Ok (y :: ys)))
  end.

(** [zip(xs, ys)] stops at the shorter argument. *)
Fixpoint zip {A B} (xs : list A) (ys : list B) : list (A * B) :=
  match xs, ys with
  | x :: xs', y :: ys' => (x, y) :: zip xs' ys'
  | _, _ => []
  end.

(* ================================================================== *)
(** ** Quantum functions: operations queued on a tape *)
(* ================================================================== *)

(** The library operators the notebook instantiates.  Calling one inside a
    quantum function appends it to the tape being recorded. *)
Inductive op : Type :=
| AmplitudeEmbedding (features : list R) (wires : list nat) (normalize : bool)
| U3 (theta phi delta : R) (wire : nat)
| RY (theta : R) (wire : nat)
| RZ (phi : R) (wire : nat)
| CNOT (control target : nat).

Inductive observable : Type :=
| PauliZ (wire : nat).

Inductive measurement : Type :=
| expval (o : observable).

(** A quantum function is a computation over the tape that may raise. *)
Definition Q (A : Type) : Type := list op -> result (A * list op).

Definition ret {A} (a : A) : Q A := fun tape => Ok (a, tape).

Definition bind {A B} (m : Q A) (k : A -> Q B) : Q B :=
  fun tape =>
    match m tape with
    | Ok (a, tape') => k a tape'
    | Err e => Err e
    end.

Definition queue (o : op) : Q unit := fun tape => Ok (tt, tape ++ [o]).

Definition raise {A} (e : error) : Q A := fun _ => Err e.

Definition lift {A} (r : result A) : Q A :=
  fun tape =>
    match r with
    | Ok a => Ok (a, tape)
    | Err e => Err e
    end.

Declare Scope qfun_scope.
Delimit Scope qfun_scope with qfun.
Notation "x <- m ;; k" := (bind m (fun x => k))
  (at level 61, m at next level, right associativity) : qfun_scope.
Notation "m ;; k" := (bind m (fun _ => k))
  (at level 61, right associativity) : qfun_scope.
Local Open Scope qfun_scope.

(** [for x in xs: body(x)] *)
Fixpoint for_ {A} (xs : list A) (body : A -> Q unit) : Q unit :=
  match xs with
  | [] => ret tt
  | x :: xs' => body x ;; for_ xs' body
  end.

(** The tape a quantum function records, starting from an empty one. *)
Definition record {A} (m : Q A) : result (A * list op) := m [].

(* ------------------------------------------------------------------ *)
(** *** The notebook's quantum functions *)
(* ------------------------------------------------------------------ *)

(** Modelled from the spec: the constructor of the library template
    [qml.AmplitudeEmbedding], absent from the sources.  The embedding
    "takes a real vector of length exactly 2^n", and "violating length is
    an InvalidInputError": the library tests the length when the operator
    is created, while the tape is recorded, and queues the operator
    otherwise.  The norm is looked at when the tape is executed. *)
Definition qml_AmplitudeEmbedding (features : list R) (wires : list nat)
  (normalize : bool) : Q unit :=
  if (length features =? 2 ^ length wires)%nat
  then queue (AmplitudeEmbedding features wires normalize)
  else raise InvalidInputError.

(** Modelled from the spec: the constructor of the library gate
    [qml.CNOT], absent from the sources.  A gate's targets are distinct
    wires: the library refuses one wire given twice (its WireError) when
    the operator is created, while the tape is recorded, and queues the
    operator otherwise. *)
Definition qml_CNOT (control target : nat) : Q unit :=
  if (control =? target)%nat then raise WireError
  else queue (CNOT control target).

(** def data_embedding(X):
        qml.AmplitudeEmbedding(X, wires=range(8), normalize=True) *)
Definition data_embedding (X : list R) : Q unit :=
  qml_AmplitudeEmbedding X (range 0 8 1) true.

(** def U_SU4(params, wires): # 15 params *)
Definition U_SU4 (params : list R) (wires : list nat) : Q unit :=
  p0 <- lift (getitem params 0) ;; p1 <- lift (getitem params 1) ;;
  p2 <- lift (getitem params 2) ;; w0 <- lift (getitem wires 0) ;;
  queue (U3 p0 p1 p2 w0) ;;
  p3 <- lift (getitem params 3) ;; p4 <- lift (getitem params 4) ;;
  p5 <- lift (getitem params 5) ;; w1 <- lift (getitem wires 1) ;;
  queue (U3 p3 p4 p5 w1) ;;
  w0 <- lift (getitem wires 0) ;; w1 <- lift (getitem wires 1) ;;
  qml_CNOT w0 w1 ;;
  p6 <- lift (getitem params 6) ;; w0 <- lift (getitem wires 0) ;;
  queue (RY p6 w0) ;;
  p7 <- lift (getitem params 7) ;; w1 <- lift (getitem wires 1) ;;
  queue (RZ p7 w1) ;;
  w1 <- lift (getitem wires 1) ;; w0 <- lift (getitem wires 0) ;;
  qml_CNOT w1 w0 ;;
  p8 <- lift (getitem params 8) ;; w0 <- lift (getitem wires 0) ;;
  queue (RY p8 w0) ;;
  w0 <- lift (getitem wires 0) ;; w1 <- lift (getitem wires 1) ;;
  qml_CNOT w0 w1 ;;
  p9 <- lift (getitem params 9) ;; p10 <- lift (getitem params 10) ;;
  p11 <- lift (getitem params 11) ;; w0 <- lift (getitem wires 0) ;;
  queue (U3 p9 p10 p11 w0) ;;
  p12 <- lift (getitem params 12) ;; p13 <- lift (getitem params 13) ;;
  p14 <- lift (getitem params 14) ;; w1 <- lift (getitem wires 1) ;;
  queue (U3 p12 p13 p14 w1).

(** The two-qubit block handed to the layers: any quantum function of a
    parameter list and a wire list. *)
Definition block : Type := list R -> list nat -> Q unit.

(** def conv_layer1(U, params) *)
Definition conv_layer1 (U : block) (params : list R) : Q unit :=
  U params [0; 7]%nat ;;
  for_ (range 0 8 2) (fun i => U params [i; i + 1]%nat) ;;
  for_ (range 1 7 2) (fun i => U params [i; i + 1]%nat).

(** def conv_layer2(U, params) *)
Definition conv_layer2 (U : block) (params : list R) : Q unit :=
  U params [0; 6]%nat ;;
  U params [0; 2]%nat ;;
  U params [4; 6]%nat ;;
  U params [2; 4]%nat.

(** def conv_layer3(U, params) *)
Definition conv_layer3 (U : block) (params : list R) : Q unit :=
  U params [0; 4]%nat.

(** def QCNN_structure_without_pooling(U, params) *)
Definition QCNN_structure_without_pooling (U : block) (params : list R)
  : Q unit :=
  let param1 := slice params 0 15 in
  let param2 := slice params 15 30 in
  let param3 := slice params 30 45 in
  conv_layer1 U param1 ;;
  conv_layer2 U param2 ;;
  conv_layer3 U param3.

(** The body of the QNode [QCNN(X, params)]: it records the circuit and
    returns the measurement to perform. *)
Definition QCNN_qfunc (X params : list R) : Q measurement :=
  data_embedding X ;;
  QCNN_structure_without_pooling U_SU4 params ;;
  let result := expval (PauliZ 4) in
  ret result.

(** The calls [U(p, wires=w)] of a schedule, made one after the other. *)
Definition apply_schedule (U : block) (s : list (list R * list nat)) : Q unit :=
  for_ s (fun pw => U (fst pw) (snd pw)).

(** The schedule of the ansatz as the specification lists it. *)
Definition spec_schedule (param1 param2 param3 : list R)
  : list (list R * list nat) :=
  [ (param1, [0; 7]); (param1, [0; 1]); (param1, [2; 3]); (param1, [4; 5]);
    (param1, [6; 7]); (param1, [1; 2]); (param1, [3; 4]); (param1, [5; 6]);
    (param2, [0; 6]); (param2, [0; 2]); (param2, [4; 6]); (param2, [2; 4]);
    (param3, [0; 4]) ]%nat.

(** The gate sequence of the two-qubit block as the specification lists it. *)
Definition spec_block_gates (p : nat -> R) (t0 t1 : nat) : list op :=
  [ U3 (p 0%nat) (p 1%nat) (p 2%nat) t0;
    U3 (p 3%nat) (p 4%nat) (p 5%nat) t1;
    CNOT t0 t1;
    RY (p 6%nat) t0;
    RZ (p 7%nat) t1;
    CNOT t1 t0;
    RY (p 8%nat) t0;
    CNOT t0 t1;
    U3 (p 9%nat) (p 10%nat) (p 11%nat) t0;
    U3 (p 12%nat) (p 13%nat) (p 14%nat) t1 ].

(* ================================================================== *)
(** ** Complex amplitudes *)
(* ================================================================== *)

Definition C : Type := (R * R)%type.

Definition RtoC (x : R) : C := (x, 0).
Definition C0 : C := RtoC 0.
Definition C1 : C := RtoC 1.
Definition Cre (z : C) : R := fst z.
Definition Cim (z : C) : R := snd z.
Definition Cadd (a b : C) : C := (fst a + fst b, snd a + snd b).
Definition Copp (a : C) : C := (- fst a, - snd a).
Definition Csub (a b : C) : C := Cadd a (Copp b).
Definition Cmul (a b : C) : C :=
  (fst a * fst b - snd a * snd b, fst a * snd b + snd a * fst b).
Definition Cconj (a : C) : C := (fst a, - snd a).
(** |z|^2 *)
Definition Cnorm2 (a : C) : R := fst a * fst a + snd a * snd a.
(** e^(i x) *)
Definition Cexp (x : R) : C := (cos x, sin x).

(* ================================================================== *)
(** ** The state-vector engine *)
(* ================================================================== *)

(** The notebook runs its circuit on the library's 'default.qubit'
    simulator, which is not part of the repository's sources.  The engine
    below is that simulator as the specification describes it (section
    4.1, State Vector Engine), over exact real arithmetic. *)

(** Modelled from the spec: the state vector of the absent simulator, "a
    complex-valued array of length 2^n, indexed by the n-bit
    computational-basis index".  It is kept in the shape (2, 2, ..., 2),
    one axis per wire, wire 0 first: [fst] is the slice where the first
    wire reads 0, [snd] the slice where it reads 1; [flatten] gives the
    array of length 2^n. *)
Fixpoint tensor (n : nat) : Type :=
  match n with
  | O => C
  | S k => (tensor k * tensor k)%type
  end.

Fixpoint tzero (n : nat) : tensor n :=
  match n with
  | O => C0
  | S k => (tzero k, tzero k)
  end.

Fixpoint tadd {n : nat} : tensor n -> tensor n -> tensor n :=
  match n return tensor n -> tensor n -> tensor n with
  | O => fun x y => Cadd x y
  | S k => fun x y => (tadd (fst x) (fst y), tadd (snd x) (snd y))
  end.

Fixpoint tscale {n : nat} (a : C) : tensor n -> tensor n :=
  match n return tensor n -> tensor n with
  | O => fun x => Cmul a x
  | S k => fun x => (tscale a (fst x), tscale a (snd x))
  end.

(** <x|y>, conjugate-linear in [x]. *)
Fixpoint tdot {n : nat} : tensor n -> tensor n -> C :=
  match n return tensor n -> tensor n -> C with
  | O => fun x y => Cmul (Cconj x) y
  | S k => fun x y => Cadd (tdot (fst x) (fst y)) (tdot (snd x) (snd y))
  end.

(** The sum of the squared magnitudes of the amplitudes. *)
Fixpoint norm2 {n : nat} : tensor n -> R :=
  match n return tensor n -> R with
  | O => fun x => Cnorm2 x
  | S k => fun x => norm2 (fst x) + norm2 (snd x)
  end.

(** The flat array of length [2^n] reshaped to (2, ..., 2), row-major, and
    back. *)
Fixpoint reshape (n : nat) (l : list C) : tensor n :=
  match n return tensor n with
  | O => hd C0 l
  | S k => (reshape k (firstn (2 ^ k) l), reshape k (skipn (2 ^ k) l))
  end.

Fixpoint flatten {n : nat} : tensor n -> list C :=
  match n return tensor n -> list C with
  | O => fun x => [x]
  | S k => fun x => flatten (fst x) ++ flatten (snd x)
  end.

(** The amplitude at flat index [i]. *)
Definition amplitude {n : nat} (psi : tensor n) (i : nat) : C :=
  nth i (flatten psi) C0.

(** The computational basis state of flat index [j]; [basis_state n 0] is
    the state |0...0> a device starts from. *)
Definition basis_state (n j : nat) : tensor n :=
  reshape n (map (fun i => if (i =? j)%nat then C1 else C0) (seq 0 (2 ^ n))).

(** A single-wire gate is a 2x2 complex matrix. *)
Record mat2 : Type := Mat2 { m00 : C; m01 : C; m10 : C; m11 : C }.

(** Modelled from the spec: the absent simulator's [apply(state, gate)],
    which "applies the gate's unitary matrix to the amplitudes indexed by
    the target qubits, leaving all other basis-index bits untouched".  For
    the gate [m] on wire [w] the two slices along axis [w] are combined
    with the rows of [m]. *)
Fixpoint apply1 (m : mat2) (w : nat) {n : nat} {struct n}
  : tensor n -> tensor n :=
  match n return tensor n -> tensor n with
  | O => fun x => x
  | S k => fun x =>
      match w with
      | O => (tadd (tscale (m00 m) (fst x)) (tscale (m01 m) (snd x)),
              tadd (tscale (m10 m) (fst x)) (tscale (m11 m) (snd x)))
      | S w' => (apply1 m w' (fst x), apply1 m w' (snd x))
      end
  end.

(** Pauli X on wire [t]: the two slices along axis [t] change places. *)
Fixpoint flip (t : nat) {n : nat} {struct n} : tensor n -> tensor n :=
  match n return tensor n -> tensor n with
  | O => fun x => x
  | S k => fun x =>
      match t with
      | O => (snd x, fst x)
      | S t' => (flip t' (fst x), flip t' (snd x))
      end
  end.

(** [x] and [y] exchange the amplitudes whose wire [c] reads 1. *)
Fixpoint ctl_swap (c : nat) {n : nat} {struct n}
  : tensor n -> tensor n -> tensor n * tensor n :=
  match n return tensor n -> tensor n -> tensor n * tensor n with
  | O => fun x y => (x, y)
  | S k => fun x y =>
      match c with
      | O => ((fst x, snd y), (fst y, snd x))
      | S c' =>
          let a := ctl_swap c' (fst x) (fst y) in
          let b := ctl_swap c' (snd x) (snd y) in
          ((fst a, fst b), (snd a, snd b))
      end
  end.

(** Modelled from the spec: the library gate [qml.CNOT], absent from the
    sources; the "entangling exchange (a controlled-NOT-equivalent
    operation)".  With control [c] and target [t]: where wire [c] reads 1
    the two slices along axis [t] change places. *)
Fixpoint cnot (c t : nat) {n : nat} {struct n} : tensor n -> tensor n :=
  match n return tensor n -> tensor n with
  | O => fun x => x
  | S k => fun x =>
      match c, t with
      | O, O => x
      | O, S t' => (fst x, flip t' (snd x))
      | S c', O => ctl_swap c' (fst x) (snd x)
      | S c', S t' => (cnot c' t' (fst x), cnot c' t' (snd x))
      end
  end.

(** Modelled from the spec: the absent simulator's
    [expectation(state, observable)] for the Pauli-Z observable on wire
    [w], <psi| Z_w |psi>: the squared magnitudes where wire [w] reads 0
    minus those where it reads 1. *)
Fixpoint expval_Z (w : nat) {n : nat} {struct n} : tensor n -> R :=
  match n return tensor n -> R with
  | O => fun x => Cnorm2 x
  | S k => fun x =>
      match w with
      | O => norm2 (fst x) - norm2 (snd x)
      | S w' => expval_Z w' (fst x) + expval_Z w' (snd x)
      end
  end.

(* ------------------------------------------------------------------ *)
(** *** Gate matrices *)
(* ------------------------------------------------------------------ *)

(** Modelled from the spec: the library gate [qml.U3], absent from the
    sources; the "single-qubit general rotation (3 parameters)", with the
    matrix the library documents:
      [[cos(t/2), -e^(i d) sin(t/2)], [e^(i p) sin(t/2), e^(i (p+d)) cos(t/2)]]. *)
Definition U3_matrix (theta phi delta : R) : mat2 :=
  {| m00 := RtoC (cos (theta / 2));
     m01 := Copp (Cmul (Cexp delta) (RtoC (sin (theta / 2))));
     m10 := Cmul (Cexp phi) (RtoC (sin (theta / 2)));
     m11 := Cmul (Cexp (phi + delta)) (RtoC (cos (theta / 2))) |}.

(** Modelled from the spec: the library gate [qml.RY], absent from the
    sources; a "single-parameter rotation", with the matrix the library
    documents: [[cos(t/2), -sin(t/2)], [sin(t/2), cos(t/2)]]. *)
Definition RY_matrix (theta : R) : mat2 :=
  {| m00 := RtoC (cos (theta / 2));
     m01 := RtoC (- sin (theta / 2));
     m10 := RtoC (sin (theta / 2));
     m11 := RtoC (cos (theta / 2)) |}.

(** Modelled from the spec: the library gate [qml.RZ], absent from the
    sources; a "single-parameter rotation", with the matrix the library
    documents: [[e^(-i p/2), 0], [0, e^(i p/2)]]. *)
Definition RZ_matrix (phi : R) : mat2 :=
  {| m00 := Cexp (- (phi / 2));
     m01 := C0;
     m10 := C0;
     m11 := Cexp (phi / 2) |}.

(* ------------------------------------------------------------------ *)
(** *** The embedding *)
(* ------------------------------------------------------------------ *)

(** The sum of the squares of a real vector; its square root is the
    Euclidean norm. *)
Definition sumsq (X : list R) : R := fold_right (fun x acc => x * x + acc) 0 X.

Definition l2norm (X : list R) : R := sqrt (sumsq X).

(** Modelled from the spec: the library template [qml.AmplitudeEmbedding],
    absent from the sources.  "embed(features) -> state takes a real vector
    of length exactly 2^n, L2-normalizes it (dividing by its Euclidean norm;
    if the norm is zero the mapping is undefined -- fail with an
    InvalidInputError), and returns a state vector whose real amplitudes
    equal the normalized features (imaginary parts zero)."  The model
    prepares the whole register, wires 0 .. n-1 in order, as the notebook
    does; without [normalize] the vector must already have norm 1. *)
Definition amplitude_embedding (n : nat) (features : list R)
  (wires : list nat) (normalize : bool) : result (tensor n) :=
  if list_eq_dec Nat.eq_dec wires (seq 0 n) then
    if (length features =? 2 ^ length wires)%nat then
      if normalize then
        if Req_dec_T (l2norm features) 0 then Err InvalidInputError
        else Ok (reshape n (map (fun x => RtoC (x / l2norm features)) features))
      else
        if Req_dec_T (l2norm features) 1 then Ok (reshape n (map RtoC features))
        else Err InvalidInputError
    else Err InvalidInputError
  else Err WireError.

(* ------------------------------------------------------------------ *)
(** *** Executing a tape on the device *)
(* ------------------------------------------------------------------ *)

Definition valid_wire (n w : nat) : bool := (w <? n)%nat.

(** One gate of the tape applied to a register of [n] wires. *)
Definition apply_op {n : nat} (o : op) (psi : tensor n) : result (tensor n) :=
  match o with
  | AmplitudeEmbedding _ _ _ => Err DeviceError
  | U3 theta phi delta w =>
      if valid_wire n w then Ok (apply1 (U3_matrix theta phi delta) w psi)
      else Err WireError
  | RY theta w =>
      if valid_wire n w then Ok (apply1 (RY_matrix theta) w psi)
      else Err WireError
  | RZ phi w =>
      if valid_wire n w then Ok (apply1 (RZ_matrix phi) w psi)
      else Err WireError
  | CNOT c t =>
      if valid_wire n c && valid_wire n t && negb (c =? t)%nat
      then Ok (cnot c t psi)
      else Err WireError
  end.

Fixpoint run {n : nat} (tape : list op) (psi : tensor n) : result (tensor n) :=
  match tape with
  | [] => Ok psi
  | o :: tape' => rbind (apply_op o psi) (run tape')
  end.

(** Modelled from the spec: the absent simulator's run of a tape.  The
    register starts in |0...0> ([initialize(n)]); a state preparation is
    accepted as the first operation only. *)
Definition execute (n : nat) (tape : list op) : result (tensor n) :=
  match tape with
  | AmplitudeEmbedding features wires normalize :: tape' =>
      rbind (amplitude_embedding n features wires normalize) (run tape')
  | _ => run tape (basis_state n 0)
  end.

Definition measure {n : nat} (m : measurement) (psi : tensor n) : result R :=
  match m with
  | expval (PauliZ w) =>
      if valid_wire n w then Ok (expval_Z w psi) else Err WireError
  end.

(** [@qml.qnode(dev)]: record the quantum function, execute its tape on the
    device, return the measured value. *)
Definition qnode (n : nat) (f : Q measurement) : result R :=
  rbind (record f) (fun mt =>
  rbind (execute n (snd mt)) (fun psi =>
  measure (fst mt) psi)).

(** dev = qml.device('default.qubit', wires = 8) *)
Definition dev : nat := 8%nat.

(** @qml.qnode(dev)
    def QCNN(X, params) *)
Definition QCNN (X params : list R) : result R :=
  qnode dev (QCNN_qfunc X params).

(* ------------------------------------------------------------------ *)
(** *** The matrix of a circuit *)
(* ------------------------------------------------------------------ *)

(** The columns of the matrix of a tape on [n] wires: the images of the
    basis states. *)
Definition tape_matrix (n : nat) (tape : list op) : result (list (tensor n)) :=
  list_comp (fun j => run tape (basis_state n j)) (seq 0 (2 ^ n)).

(** The entry in row [k], column [j]. *)
Definition entry {n : nat} (M : list (tensor n)) (k j : nat) : C :=
  amplitude (nth j M (tzero n)) k.

(** The entry (i, j) of the conjugate transpose of [M] times [M]. *)
Definition adjoint_mul {n : nat} (M : list (tensor n)) (i j : nat) : C :=
  fold_right (fun k acc => Cadd (Cmul (Cconj (entry M k i)) (entry M k j)) acc)
             C0 (seq 0 (2 ^ n)).

(** The 4x4 matrix of the two-qubit block on targets (t0, t1) of a
    two-wire register. *)
Definition U_SU4_matrix (params : list R) (t0 t1 : nat)
  : result (list (tensor 2)) :=
  rbind (record (U_SU4 params [t0; t1])) (fun ut => tape_matrix 2 (snd ut)).

(* ================================================================== *)
(** ** Training objective and evaluation *)
(* ================================================================== *)

(** def square_loss(labels, predictions) *)
Definition square_loss (labels predictions : list R) : result R :=
  let loss :=
    fold_left (fun loss lp => loss + (fst lp - snd lp) ^ 2)
              (zip labels predictions) 0 in
  if (length labels =? 0)%nat then Err ZeroDivisionError
  else Ok (loss / INR (length labels)).

(** def cost(params, X, Y) *)
Definition cost (params : list R) (X : list (list R)) (Y : list R) : result R :=
  rbind (list_comp (fun x => QCNN x params) X) (fun predictions =>
  square_loss Y predictions).

(** The test of the loop body of [accuracy_test]: np.abs(l - p) < 0.5 *)
Definition counted_correct (l p : R) : bool :=
  if Rlt_dec (Rabs (l - p)) (1 / 2) then true else false.

(** def accuracy_test(predictions, labels) *)
Definition accuracy_test (predictions labels : list R) : result R :=
  let acc :=
    fold_left (fun acc lp =>
                 if counted_correct (fst lp) (snd lp) then (acc + 1)%nat else acc)
              (zip labels predictions) 0%nat in
  if (length labels =? 0)%nat then Err ZeroDivisionError
  else Ok (INR acc / INR (length labels)).

(** The mean of a list of reals, and the loss and accuracy as the
    specification words them. *)
Definition Rsum (l : list R) : R := fold_right Rplus 0 l.

Definition spec_mse (predictions labels : list R) : R :=
  Rsum (map (fun pl => (fst pl - snd pl) ^ 2) (zip predictions labels))
  / INR (length labels).

(** |prediction - label| < 0.5 counts as correct. *)
Definition spec_correct (prediction label : R) : bool :=
  if Rlt_dec (Rabs (prediction - label)) (1 / 2) then true else false.

Definition spec_accuracy (predictions labels : list R) : R :=
  INR (length (filter (fun pl => spec_correct (fst pl) (snd pl))
                      (zip predictions labels)))
  / INR (length labels).

(* ================================================================== *)
(** ** Predicates used by the statements *)
(* ================================================================== *)

(** The conjugate transpose of [m] times [m] is the identity. *)
Definition unitary2 (m : mat2) : Prop :=
  Cadd (Cmul (Cconj (m00 m)) (m00 m)) (Cmul (Cconj (m10 m)) (m10 m)) = C1 /\
  Cadd (Cmul (Cconj (m00 m)) (m01 m)) (Cmul (Cconj (m10 m)) (m11 m)) = C0 /\
  Cadd (Cmul (Cconj (m01 m)) (m00 m)) (Cmul (Cconj (m11 m)) (m10 m)) = C0 /\
  Cadd (Cmul (Cconj (m01 m)) (m01 m)) (Cmul (Cconj (m11 m)) (m11 m)) = C1.

(** A gate of the tape that the device of [n] wires accepts. *)
Definition valid_op (n : nat) (o : op) : bool :=
  match o with
  | AmplitudeEmbedding _ _ _ => false
  | U3 _ _ _ w | RY _ w | RZ _ w => valid_wire n w
  | CNOT c t => valid_wire n c && valid_wire n t && negb (c =? t)%nat
  end.

(** A feature vector the embedding accepts on the 8-wire device. *)
Definition valid_features (X : list R) : Prop :=
  length X = 256%nat /\ l2norm X <> 0.

(** Features of ordinary size: 256 entries of magnitude at most 1 whose
    squares sum to at least 1.  (The images of the notebook are pixel
    intensities in [0, 1].) *)
Definition well_scaled (X : list R) : Prop :=
  length X = 256%nat /\ Forall (fun x => Rabs x <= 1) X /\ 1 <= sumsq X.

(** The L2-normalized features as a state of the device. *)
Definition embedded (X : list R) : tensor dev :=
  reshape dev (map (fun x => RtoC (x / l2norm X)) X).

(** The state the embedding alone prepares on the device. *)
Definition embed (X : list R) : result (tensor dev) :=
  rbind (record (data_embedding X)) (fun ut => execute dev (snd ut)).

(** The whole tape of the circuit: the embedding, then the thirteen blocks
    of the schedule. *)
Definition QCNN_tape (X params : list R) : list op :=
  AmplitudeEmbedding X (range 0 8 1) true
  :: flat_map (fun pw => spec_block_gates (fun i => nth i (fst pw) 0)
                                          (nth 0 (snd pw) 0%nat)
                                          (nth 1 (snd pw) 0%nat))
              (spec_schedule (slice params 0 15) (slice params 15 30)
                             (slice params 30 45)).

(** Inputs used to exercise the statements: the one-hot feature vector
    with 1 at index 0, and all-zero parameter vectors. *)
Definition one_hot : list R := 1 :: repeat 0 255.
Definition zero_params : list R := repeat 0 45.
Definition zero_block_params : list R := repeat 0 15.

(** A block that queues one gate naming the first parameter and the first
    wire it was called with. *)
Definition probe_block : block :=
  fun p w => queue (U3 (nth 0 p 0) 0 0 (nth 0 w 0%nat)).

(** |0...0> written by recursion on the shape: the amplitude 1 sits in the
    slice where every wire reads 0. *)
Fixpoint ket0 (n : nat) : tensor n :=
  match n return tensor n with
  | O => C1
  | S k => (ket0 k, tzero k)
  end.

Definition identity2 : mat2 := {| m00 := C1; m01 := C0; m10 := C0; m11 := C1 |}.

(** A gate whose rotation angles are all zero, or a CNOT. *)
Definition zero_angle (o : op) : Prop :=
  match o with
  | AmplitudeEmbedding _ _ _ => False
  | U3 theta phi delta _ => theta = 0 /\ phi = 0 /\ delta = 0
  | RY theta _ => theta = 0
  | RZ phi _ => phi = 0
  | CNOT _ _ => True
  end.

(* ================================================================== *)
(** ** The notebook's top-level cells *)
(* ================================================================== *)

(** [x[idx]] for an array of indices, and equally
    [[x[i] for i in idx]]: the elements at the indices, in the order of the
    indices; an index out of bounds raises. *)
Definition take {A} (x : list A) (idx : list nat) : result (list A) :=
  list_comp (getitem x) idx.

(** (y == 0) | (y == 1) on one label. *)
Definition is_01 (label : nat) : bool := (label =? 0)%nat || (label =? 1)%nat.

(** np.where((y == 0) | (y == 1)) on a one-dimensional label array: the
    indices, in increasing order, at which the label is 0 or 1. *)
Definition where_01 (y : list nat) : list nat :=
  map fst (filter (fun iy => is_01 (snd iy)) (zip (seq 0 (length y)) y)).

(** x_train_filter_01 = np.where((y_train == 0) | (y_train == 1))
    X_train = x_train[x_train_filter_01]
    Y_train = y_train[x_train_filter_01] *)
Definition filter_classes {A} (x_train : list A) (y_train : list nat)
  : result (list A * list nat) :=
  let x_train_filter_01 := where_01 y_train in
  rbind (take x_train x_train_filter_01) (fun X_train =>
  rbind (take y_train x_train_filter_01) (fun Y_train =>
  Ok (X_train, Y_train))).

(** X_batch = [X_train[i] for i in batch_index]
    Y_batch = [Y_train[i] for i in batch_index] *)
Definition draw_batch {A B} (X_train : list A) (Y_train : list B)
  (batch_index : list nat) : result (list A * list B) :=
  rbind (take X_train batch_index) (fun X_batch =>
  rbind (take Y_train batch_index) (fun Y_batch =>
  Ok (X_batch, Y_batch))).

(** steps = 100, batch_size = 25 *)
Definition steps : nat := 100.
Definition batch_size : nat := 25.

Section Training.

(** The random generator and the optimizer are the library's; the loop is
    modelled over any generator state with a [randint] and any optimizer
    state with a [step_and_cost]. *)
Variable rng : Type.
Variable randint : nat -> nat -> nat -> rng -> result (list nat * rng).
Variable optimizer : Type.
Variable step_and_cost :
  optimizer -> (list R -> result R) -> list R ->
  result (optimizer * (list R * R)).

(** What the training cell keeps between iterations, and what it has
    printed. *)
Record training : Type := Training {
  t_rng : rng;
  t_opt : optimizer;
  t_params : list R;
  t_loss_history : list R;
  t_printed : list (nat * R)
}.

(** The body of [for it in range(steps)]. *)
Definition training_step (X_train : list (list R)) (Y_train : list R)
  (it : nat) (s : training) : result training :=
  rbind (randint 0 (length X_train) batch_size (t_rng s)) (fun drawn =>
  let batch_index := fst drawn in
  rbind (draw_batch X_train Y_train batch_index) (fun batch =>
  let X_batch := fst batch in
  let Y_batch := snd batch in
  rbind (step_and_cost (t_opt s) (fun v => cost v X_batch Y_batch)
                       (t_params s)) (fun stepped =>
  let params := fst (snd stepped) in
  let cost_new := snd (snd stepped) in
  Ok {| t_rng := snd drawn;
        t_opt := fst stepped;
        t_params := params;
        t_loss_history := t_loss_history s ++ [cost_new];
        t_printed := if (it mod 10 =? 0)%nat
                     then t_printed s ++ [(it, cost_new)]
                     else t_printed s |}))).

Fixpoint training_loop (X_train : list (list R)) (Y_train : list R)
  (its : list nat) (s : training) : result training :=
  match its with
  | [] => Ok s
  | it :: its' =>
      rbind (training_step X_train Y_train it s)
            (training_loop X_train Y_train its')
  end.

(** The training cell from the initial parameters on: loss_history = [],
    then the loop. *)
Definition train (X_train : list (list R)) (Y_train : list R)
  (g : rng) (opt : optimizer) (params : list R) : result training :=
  training_loop X_train Y_train (range 0 steps 1)
    {| t_rng := g; t_opt := opt; t_params := params;
       t_loss_history := []; t_printed := [] |}.

End Training.

Arguments t_rng {rng optimizer} _.
Arguments t_opt {rng optimizer} _.
Arguments t_params {rng optimizer} _.
Arguments t_loss_history {rng optimizer} _.
Arguments t_printed {rng optimizer} _.

(** A generator that always draws the lowest index and an optimizer that
    leaves the parameters where they are, used to run the training cell. *)
Definition lowest_randint (low high size : nat) (g : unit)
  : result (list nat * unit) :=
  Ok (repeat low size, g).

Definition idle_step_and_cost (opt : unit) (objective : list R -> result R)
  (params : list R) : result (unit * (list R * R)) :=
  Ok (opt, (params, 0)).

(** predictions = [QCNN(x, params) for x in X_test]
    accuracy = accuracy_test(predictions, Y_test)
    accuracy = accuracy * 100 *)
Definition test_accuracy (params : list R) (X_test : list (list R))
  (Y_test : list R) : result R :=
  rbind (list_comp (fun x => QCNN x params) X_test) (fun predictions =>
  rbind (accuracy_test predictions Y_test) (fun accuracy =>
  Ok (accuracy * 100))).

(** The wires an operation addresses. *)
Definition op_wires (o : op) : list nat :=
  match o with
  | AmplitudeEmbedding _ wires _ => wires
  | U3 _ _ _ w | RY _ w | RZ _ w => [w]
  | CNOT c t => [c; t]
  end.

(** The wires a tape addresses after its first [k] operations. *)
Definition wires_after (k : nat) (tape : list op) : list nat :=
  flat_map op_wires (skipn k tape).

(** A call of the block that succeeds: 15 parameters and two distinct
    wires. *)
Definition call_ok (pw : list R * list nat) : Prop :=
  length (fst pw) = 15%nat /\ length (snd pw) = 2%nat /\
  nth 0 (snd pw) 0%nat <> nth 1 (snd pw) 0%nat.

(* ================================================================== *)
(** ** Tactics *)
(* ================================================================== *)

(** Proves that every call of a written-out schedule succeeds, from
    hypotheses on the lengths of its parameter lists. *)
Ltac schedule_ok :=
  repeat (constructor;
          [unfold call_ok; cbn [fst snd nth length];
           repeat split; try assumption; try lia; try discriminate|]);
  try constructor.

(** Destructs the next call of the block whose outcome decides a goal. *)
Ltac next_call U :=
  match goal with
  | |- context [U ?p ?w ?t] =>
      destruct (U p w t) as [[[] ?]|?]; cbn; try reflexivity
  end.

Ltac c_unfold :=
  cbv [Cadd Cmul Copp Csub Cconj Cnorm2 C0 C1 RtoC Cexp Cre Cim fst snd].

Ltac c_destruct :=
  repeat match goal with
         | z : C |- _ => destruct z as [? ?]
         end.

(** Closes an equation of complex numbers that holds by ring reasoning on
    the real and imaginary parts. *)
Ltac c_ring := intros; c_destruct; c_unfold; f_equal; ring.

(* ================================================================== *)
(** * Properties *)
(* ================================================================== *)

(** ** The tape of the two-qubit block and the schedule of the ansatz *)

Lemma length_15_inv (A : Type) (l : list A) :
  length l = 15%nat ->
  exists a0 a1 a2 a3 a4 a5 a6 a7 a8 a9 a10 a11 a12 a13 a14,
    l = [a0; a1; a2; a3; a4; a5; a6; a7; a8; a9; a10; a11; a12; a13; a14].
Proof.
  intros H.
  do 15 (destruct l as [|? l]; [discriminate H|]).
  destruct l; [|discriminate H].
  repeat eexists.
Qed.

(** The block queues its ten gates behind whatever the tape holds. *)
Lemma U_SU4_tape (params : list R) (t0 t1 : nat) (tape : list op) :
  length params = 15%nat -> t0 <> t1 ->
  U_SU4 params [t0; t1] tape
  = Ok (tt, tape ++ spec_block_gates (fun i => nth i params 0) t0 t1).
Proof.
  intros H Hne.
  destruct (length_15_inv _ _ H)
    as (a0 & a1 & a2 & a3 & a4 & a5 & a6 & a7 & a8 & a9 & a10 & a11 & a12
        & a13 & a14 & ->).
  assert (N01 : (t0 =? t1)%nat = false) by (apply Nat.eqb_neq, Hne).
  assert (N10 : (t1 =? t0)%nat = false) by (apply Nat.eqb_neq; auto).
  unfold U_SU4.
  repeat (cbv [bind lift getitem nth_error queue qml_CNOT raise];
          rewrite ?N01, ?N10).
  cbv [spec_block_gates nth].
  repeat rewrite <- app_assoc. reflexivity.
Qed.

Lemma slice_lengths (params : list R) :
  length params = 45%nat ->
  length (slice params 0 15) = 15%nat /\
  length (slice params 15 30) = 15%nat /\
  length (slice params 30 45) = 15%nat /\
  params = slice params 0 15 ++ slice params 15 30 ++ slice params 30 45.
Proof.
  intros H. unfold slice.
  repeat split; try (rewrite length_firstn, length_skipn; lia).
  change (30 - 15)%nat with 15%nat. change (45 - 30)%nat with 15%nat.
  change (15 - 0)%nat with 15%nat.
  rewrite <- (firstn_skipn 15 params) at 1. simpl skipn at 2. f_equal.
  rewrite <- (firstn_skipn 15 (skipn 15 params)) at 1. f_equal.
  rewrite skipn_skipn. simpl Nat.add.
  symmetry. apply firstn_all2. rewrite length_skipn. lia.
Qed.

Lemma ansatz_schedule (U : block) (params : list R) (tape : list op) :
  QCNN_structure_without_pooling U params tape
  = apply_schedule U
      (spec_schedule (slice params 0 15) (slice params 15 30)
                     (slice params 30 45)) tape.
Proof.
  cbv [QCNN_structure_without_pooling conv_layer1 conv_layer2 conv_layer3
       apply_schedule spec_schedule].
  generalize (slice params 0 15) (slice params 15 30) (slice params 30 45).
  intros p1 p2 p3. cbn. unfold bind, ret.
  do 13 next_call U.
Qed.

(** C1: for every 45-element parameter vector and every two-qubit block
    [U], the ansatz makes exactly the calls of the specified schedule, in
    that order: param1 on (0,7), (0,1), (2,3), (4,5), (6,7), (1,2), (3,4),
    (5,6); param2 on (0,6), (0,2), (4,6), (2,4); param3 on (0,4); where
    param1, param2, param3 are the contiguous 15-element slices
    params[0:15], params[15:30], params[30:45] that together make up params. *)
Theorem C1_ansatz_pair_sequence (U : block) (params : list R) (tape : list op) :
  length params = 45%nat ->
  let param1 := slice params 0 15 in
  let param2 := slice params 15 30 in
  let param3 := slice params 30 45 in
  QCNN_structure_without_pooling U params tape
  = (U param1 [0; 7] ;; U param1 [0; 1] ;; U param1 [2; 3] ;;
     U param1 [4; 5] ;; U param1 [6; 7] ;; U param1 [1; 2] ;;
     U param1 [3; 4] ;; U param1 [5; 6] ;;
     U param2 [0; 6] ;; U param2 [0; 2] ;; U param2 [4; 6] ;;
     U param2 [2; 4] ;;
     U param3 [0; 4] ;; ret tt)%nat tape
  /\ length param1 = 15%nat /\ length param2 = 15%nat
  /\ length param3 = 15%nat
  /\ params = param1 ++ param2 ++ param3.
Proof.
  intros H param1 param2 param3. split.
  - rewrite ansatz_schedule. reflexivity.
  - apply slice_lengths, H.
Qed.

Lemma C1_ansatz_pair_sequence_witness :
  length (map INR (seq 0 45)) = 45%nat /\
  QCNN_structure_without_pooling probe_block (map INR (seq 0 45)) []
  = Ok (tt, [U3 0 0 0 0; U3 0 0 0 0; U3 0 0 0 2; U3 0 0 0 4; U3 0 0 0 6;
             U3 0 0 0 1; U3 0 0 0 3; U3 0 0 0 5;
             U3 15 0 0 0; U3 15 0 0 0; U3 15 0 0 4; U3 15 0 0 2;
             U3 30 0 0 0]%nat).
Proof.
  split; [reflexivity|].
  destruct (C1_ansatz_pair_sequence probe_block (map INR (seq 0 45)) [] eq_refl)
    as [-> _].
  cbv [bind queue ret slice firstn skipn map seq nth Nat.sub app probe_block].
  repeat (f_equal; try (simpl; lra)).
Defined.

(** C2: for every 15-parameter vector and ordered pair (t0, t1) of
    distinct targets the block queues exactly: a 3-parameter rotation U3 on t0 and on t1
    (parameters 0-5), CNOT t0 -> t1, RY on t0 and RZ on t1 (parameters 6, 7),
    CNOT t1 -> t0, RY on t0 (parameter 8), CNOT t0 -> t1, then U3 on t0 and
    on t1 (parameters 9-14); the tape is a function of the parameters and
    the target order alone. *)
Theorem C2_block_gate_sequence (params : list R) (t0 t1 : nat) :
  length params = 15%nat -> t0 <> t1 ->
  let p := fun i => nth i params 0 in
  record (U_SU4 params [t0; t1])
  = Ok (tt, [ U3 (p 0%nat) (p 1%nat) (p 2%nat) t0;
              U3 (p 3%nat) (p 4%nat) (p 5%nat) t1;
              CNOT t0 t1;
              RY (p 6%nat) t0;
              RZ (p 7%nat) t1;
              CNOT t1 t0;
              RY (p 8%nat) t0;
              CNOT t0 t1;
              U3 (p 9%nat) (p 10%nat) (p 11%nat) t0;
              U3 (p 12%nat) (p 13%nat) (p 14%nat) t1 ]).
Proof.
  intros H Hne p. unfold record. rewrite (U_SU4_tape params t0 t1 [] H Hne).
  reflexivity.
Qed.

Lemma C2_block_gate_sequence_witness :
  length zero_block_params = 15%nat /\ 3%nat <> 4%nat /\
  record (U_SU4 zero_block_params [3; 4]%nat)
  = Ok (tt, [ U3 0 0 0 3; U3 0 0 0 4; CNOT 3 4; RY 0 3; RZ 0 4; CNOT 4 3;
              RY 0 3; CNOT 3 4; U3 0 0 0 3; U3 0 0 0 4 ]%nat).
Proof.
  assert (Hne : 3%nat <> 4%nat) by discriminate.
  split; [reflexivity|]. split; [exact Hne|].
  exact (C2_block_gate_sequence zero_block_params 3 4 eq_refl Hne).
Defined.

(* ------------------------------------------------------------------ *)
(** ** Complex arithmetic *)
(* ------------------------------------------------------------------ *)

Lemma C_ring_theory : ring_theory C0 C1 Cadd Cmul Csub Copp (@eq C).
Proof. constructor; c_ring. Qed.

Add Ring C_ring : C_ring_theory.

Lemma Cexp_add (a b : R) : Cexp (a + b) = Cmul (Cexp a) (Cexp b).
Proof. unfold Cexp, Cmul; simpl. rewrite cos_plus, sin_plus. f_equal; ring. Qed.

Lemma Cexp_conj_mul (a : R) : Cmul (Cconj (Cexp a)) (Cexp a) = C1.
Proof.
  c_unfold. pose proof (sin2_cos2 a) as H. unfold Rsqr in H.
  f_equal; [|ring]. rewrite <- H. ring.
Qed.

Lemma Cconj_mul (a b : C) : Cconj (Cmul a b) = Cmul (Cconj a) (Cconj b).
Proof. c_ring. Qed.

Lemma Cconj_add (a b : C) : Cconj (Cadd a b) = Cadd (Cconj a) (Cconj b).
Proof. c_ring. Qed.

Lemma Cconj_opp (a : C) : Cconj (Copp a) = Copp (Cconj a).
Proof. c_ring. Qed.

Lemma Cconj_RtoC (x : R) : Cconj (RtoC x) = RtoC x.
Proof. c_ring. Qed.

Lemma Cnorm2_nonneg (a : C) : 0 <= Cnorm2 a.
Proof. destruct a as [x y]. c_unfold. nra. Qed.

(* ------------------------------------------------------------------ *)
(** ** The gate matrices are unitary *)
(* ------------------------------------------------------------------ *)

Lemma half_angle_one (t : R) :
  Cadd (Cmul (RtoC (cos t)) (RtoC (cos t))) (Cmul (RtoC (sin t)) (RtoC (sin t)))
  = C1.
Proof.
  c_unfold. pose proof (sin2_cos2 t) as H. unfold Rsqr in H.
  f_equal; [|ring]. rewrite <- H. ring.
Qed.

Lemma U3_unitary (theta phi delta : R) : unitary2 (U3_matrix theta phi delta).
Proof.
  unfold unitary2, U3_matrix; cbn [m00 m01 m10 m11].
  rewrite Cexp_add.
  repeat rewrite ?Cconj_mul, ?Cconj_opp, ?Cconj_RtoC.
  pose proof (Cexp_conj_mul phi) as Hp.
  pose proof (Cexp_conj_mul delta) as Hd.
  pose proof (half_angle_one (theta / 2)) as Ht.
  set (c := RtoC (cos (theta / 2))) in *.
  set (s := RtoC (sin (theta / 2))) in *.
  set (ep := Cexp phi) in *. set (ed := Cexp delta) in *.
  set (ep' := Cconj ep) in *. set (ed' := Cconj ed) in *.
  repeat split.
  - transitivity (Cadd (Cmul c c) (Cmul (Cmul ep' ep) (Cmul s s))); [ring|].
    rewrite Hp. transitivity (Cadd (Cmul c c) (Cmul s s)); [ring|exact Ht].
  - transitivity (Cmul (Csub (Cmul ep' ep) C1) (Cmul (Cmul c s) ed)); [ring|].
    rewrite Hp. ring.
  - transitivity (Cmul (Csub (Cmul ep' ep) C1) (Cmul (Cmul c s) ed')); [ring|].
    rewrite Hp. ring.
  - transitivity (Cadd (Cmul (Cmul ed' ed) (Cmul s s))
                       (Cmul (Cmul (Cmul ep' ep) (Cmul ed' ed)) (Cmul c c)));
      [ring|].
    rewrite Hp, Hd. transitivity (Cadd (Cmul c c) (Cmul s s)); [ring|exact Ht].
Qed.

Lemma RY_unitary (theta : R) : unitary2 (RY_matrix theta).
Proof.
  unfold unitary2, RY_matrix; cbn [m00 m01 m10 m11].
  pose proof (sin2_cos2 (theta / 2)) as H. unfold Rsqr in H.
  c_unfold. repeat split; f_equal; try ring; rewrite <- H; ring.
Qed.

Lemma RZ_unitary (phi : R) : unitary2 (RZ_matrix phi).
Proof.
  unfold unitary2, RZ_matrix; cbn [m00 m01 m10 m11].
  pose proof (Cexp_conj_mul (- (phi / 2))) as H1.
  pose proof (Cexp_conj_mul (phi / 2)) as H2.
  repeat split.
  - transitivity (Cmul (Cconj (Cexp (- (phi / 2)))) (Cexp (- (phi / 2)))).
    + unfold C0; c_ring.
    + exact H1.
  - unfold C0; c_ring.
  - unfold C0; c_ring.
  - transitivity (Cmul (Cconj (Cexp (phi / 2))) (Cexp (phi / 2))).
    + unfold C0; c_ring.
    + exact H2.
Qed.

(* ------------------------------------------------------------------ *)
(** ** The inner product on the register *)
(* ------------------------------------------------------------------ *)

Lemma tdot_tadd_l (n : nat) (x y z : tensor n) :
  tdot (tadd x y) z = Cadd (tdot x z) (tdot y z).
Proof.
  induction n as [|n IH]; cbn in *.
  - c_ring.
  - destruct x, y, z; cbn. rewrite !IH. ring.
Qed.

Lemma tdot_tadd_r (n : nat) (x y z : tensor n) :
  tdot x (tadd y z) = Cadd (tdot x y) (tdot x z).
Proof.
  induction n as [|n IH]; cbn in *.
  - c_ring.
  - destruct x, y, z; cbn. rewrite !IH. ring.
Qed.

Lemma tdot_tscale_l (n : nat) (a : C) (x z : tensor n) :
  tdot (tscale a x) z = Cmul (Cconj a) (tdot x z).
Proof.
  induction n as [|n IH]; cbn in *.
  - c_ring.
  - destruct x, z; cbn. rewrite !IH. ring.
Qed.

Lemma tdot_tscale_r (n : nat) (a : C) (x z : tensor n) :
  tdot x (tscale a z) = Cmul a (tdot x z).
Proof.
  induction n as [|n IH]; cbn in *.
  - c_ring.
  - destruct x, z; cbn. rewrite !IH. ring.
Qed.

Lemma tdot_self (n : nat) (x : tensor n) : tdot x x = RtoC (norm2 x).
Proof.
  induction n as [|n IH]; cbn in *.
  - c_ring.
  - destruct x; cbn. rewrite !IH. c_ring.
Qed.

Lemma norm2_as_tdot (n : nat) (x : tensor n) : norm2 x = Cre (tdot x x).
Proof. rewrite tdot_self. reflexivity. Qed.

Lemma norm2_nonneg (n : nat) (x : tensor n) : 0 <= norm2 x.
Proof.
  induction n as [|n IH]; cbn in *.
  - apply Cnorm2_nonneg.
  - destruct x as [l r]; cbn. pose proof (IH l). pose proof (IH r). lra.
Qed.

(* ------------------------------------------------------------------ *)
(** ** Gates preserve the inner product *)
(* ------------------------------------------------------------------ *)

Section SingleWireGate.

Variable m : mat2.
Hypothesis m_unitary : unitary2 m.

(** On one pair of slices: the two combinations have the inner products
    of the slices they were made from. *)
Lemma unitary_pair (n : nat) (x0 x1 y0 y1 : tensor n) :
  Cadd (tdot (tadd (tscale (m00 m) x0) (tscale (m01 m) x1))
             (tadd (tscale (m00 m) y0) (tscale (m01 m) y1)))
       (tdot (tadd (tscale (m10 m) x0) (tscale (m11 m) x1))
             (tadd (tscale (m10 m) y0) (tscale (m11 m) y1)))
  = Cadd (tdot x0 y0) (tdot x1 y1).
Proof.
  destruct m_unitary as (H1 & H2 & H3 & H4).
  rewrite !tdot_tadd_l, !tdot_tadd_r, !tdot_tscale_l, !tdot_tscale_r.
  set (a := tdot x0 y0). set (b := tdot x0 y1).
  set (c := tdot x1 y0). set (d := tdot x1 y1).
  destruct m as [u00 u01 u10 u11]; cbn [m00 m01 m10 m11] in *.
  transitivity
    (Cadd
       (Cadd (Cmul (Cadd (Cmul (Cconj u00) u00) (Cmul (Cconj u10) u10)) a)
             (Cmul (Cadd (Cmul (Cconj u00) u01) (Cmul (Cconj u10) u11)) b))
       (Cadd (Cmul (Cadd (Cmul (Cconj u01) u00) (Cmul (Cconj u11) u10)) c)
             (Cmul (Cadd (Cmul (Cconj u01) u01) (Cmul (Cconj u11) u11)) d)));
    [ring|].
  rewrite H1, H2, H3, H4. ring.
Qed.

Lemma apply1_isometry (n w : nat) (x y : tensor n) :
  tdot (apply1 m w x) (apply1 m w y) = tdot x y.
Proof.
  revert w x y. induction n as [|n IH]; intros w x y; [reflexivity|].
  destruct x as [x0 x1], y as [y0 y1].
  destruct w as [|w]; cbn [apply1 tdot fst snd].
  - apply unitary_pair.
  - rewrite !IH. reflexivity.
Qed.

End SingleWireGate.

Lemma flip_isometry (n t : nat) (x y : tensor n) :
  tdot (flip t x) (flip t y) = tdot x y.
Proof.
  revert t x y. induction n as [|n IH]; intros t x y; [reflexivity|].
  destruct x as [x0 x1], y as [y0 y1].
  destruct t as [|t]; cbn [flip tdot fst snd].
  - ring.
  - rewrite !IH. reflexivity.
Qed.

Lemma ctl_swap_isometry (n c : nat) (x x' y y' : tensor n) :
  Cadd (tdot (fst (ctl_swap c x x')) (fst (ctl_swap c y y')))
       (tdot (snd (ctl_swap c x x')) (snd (ctl_swap c y y')))
  = Cadd (tdot x y) (tdot x' y').
Proof.
  revert c x x' y y'.
  induction n as [|n IH]; intros c x x' y y'; [reflexivity|].
  destruct x as [x0 x1], x' as [x0' x1'], y as [y0 y1], y' as [y0' y1'].
  destruct c as [|c]; cbn [ctl_swap tdot fst snd].
  - ring.
  - pose proof (IH c x0 x0' y0 y0') as E0.
    pose proof (IH c x1 x1' y1 y1') as E1.
    set (a0 := tdot (fst (ctl_swap c x0 x0')) (fst (ctl_swap c y0 y0'))) in *.
    set (b0 := tdot (snd (ctl_swap c x0 x0')) (snd (ctl_swap c y0 y0'))) in *.
    set (a1 := tdot (fst (ctl_swap c x1 x1')) (fst (ctl_swap c y1 y1'))) in *.
    set (b1 := tdot (snd (ctl_swap c x1 x1')) (snd (ctl_swap c y1 y1'))) in *.
    transitivity (Cadd (Cadd a0 b0) (Cadd a1 b1)); [ring|].
    rewrite E0, E1. ring.
Qed.

Lemma cnot_isometry (n c t : nat) (x y : tensor n) :
  tdot (cnot c t x) (cnot c t y) = tdot x y.
Proof.
  revert c t x y.
  induction n as [|n IH]; intros c t x y; [reflexivity|].
  destruct x as [x0 x1], y as [y0 y1].
  destruct c as [|c], t as [|t]; cbn [cnot tdot fst snd].
  - reflexivity.
  - rewrite flip_isometry. reflexivity.
  - apply ctl_swap_isometry.
  - rewrite !IH. reflexivity.
Qed.

Lemma apply_op_isometry (n : nat) (o : op) (x y x' y' : tensor n) :
  apply_op o x = Ok x' -> apply_op o y = Ok y' -> tdot x' y' = tdot x y.
Proof.
  destruct o as [f ws nm|th ph de w|th w|ph w|c t]; cbn [apply_op].
  - discriminate.
  - destruct (valid_wire n w); [|discriminate].
    intros [= <-] [= <-]. apply (apply1_isometry _ (U3_unitary th ph de)).
  - destruct (valid_wire n w); [|discriminate].
    intros [= <-] [= <-]. apply (apply1_isometry _ (RY_unitary th)).
  - destruct (valid_wire n w); [|discriminate].
    intros [= <-] [= <-]. apply (apply1_isometry _ (RZ_unitary ph)).
  - destruct (valid_wire n c && valid_wire n t && negb (c =? t)%nat);
      [|discriminate].
    intros [= <-] [= <-]. apply cnot_isometry.
Qed.

Lemma apply_op_valid (n : nat) (o : op) (x : tensor n) :
  valid_op n o = true -> exists x', apply_op o x = Ok x'.
Proof.
  destruct o as [f ws nm|th ph de w|th w|ph w|c t]; cbn [apply_op valid_op];
    intros H; try discriminate; rewrite H; eexists; reflexivity.
Qed.

Lemma run_isometry (n : nat) (tape : list op) :
  forall x y x' y' : tensor n,
    run tape x = Ok x' -> run tape y = Ok y' -> tdot x' y' = tdot x y.
Proof.
  induction tape as [|o tape IH]; intros x y x' y'; cbn [run].
  - intros [= <-] [= <-]. reflexivity.
  - destruct (apply_op o x) as [x1|] eqn:Ex; [|discriminate].
    destruct (apply_op o y) as [y1|] eqn:Ey; [|discriminate].
    cbn [rbind]. intros Hx Hy.
    rewrite (IH _ _ _ _ Hx Hy). eapply apply_op_isometry; eassumption.
Qed.

Lemma run_valid (n : nat) (tape : list op) :
  forallb (valid_op n) tape = true ->
  forall x : tensor n, exists x', run tape x = Ok x'.
Proof.
  induction tape as [|o tape IH]; cbn [forallb run]; intros H x.
  - eexists; reflexivity.
  - apply andb_prop in H. destruct H as [Ho Ht].
    destruct (apply_op_valid n o x Ho) as [x1 ->]. cbn [rbind].
    apply IH, Ht.
Qed.

Lemma run_norm2 (n : nat) (tape : list op) (x x' : tensor n) :
  run tape x = Ok x' -> norm2 x' = norm2 x.
Proof.
  intros H. rewrite !norm2_as_tdot.
  rewrite (run_isometry n tape x x x' x' H H). reflexivity.
Qed.

Lemma run_app (n : nat) (t1 t2 : list op) (x : tensor n) :
  run (t1 ++ t2) x = rbind (run t1 x) (run t2).
Proof.
  revert x. induction t1 as [|o t1 IH]; intros x; cbn [app run rbind].
  - reflexivity.
  - destruct (apply_op o x) as [x1|]; cbn [rbind]; [apply IH|reflexivity].
Qed.

Lemma forallb_firstn (A : Type) (f : A -> bool) (k : nat) (l : list A) :
  forallb f l = true -> forallb f (firstn k l) = true.
Proof.
  revert k. induction l as [|a l IH]; intros [|k] H; cbn in *; auto.
  apply andb_prop in H. destruct H as [-> H]. cbn. apply IH, H.
Qed.

(* ------------------------------------------------------------------ *)
(** ** The tapes of the block and of the whole circuit are valid *)
(* ------------------------------------------------------------------ *)

Lemma block_gates_valid (n : nat) (p : nat -> R) (t0 t1 : nat) :
  (t0 < n)%nat -> (t1 < n)%nat -> t0 <> t1 ->
  forallb (valid_op n) (spec_block_gates p t0 t1) = true.
Proof.
  intros H0 H1 Hne.
  assert (E0 : valid_wire n t0 = true) by (apply Nat.ltb_lt, H0).
  assert (E1 : valid_wire n t1 = true) by (apply Nat.ltb_lt, H1).
  assert (N01 : (t0 =? t1)%nat = false) by (apply Nat.eqb_neq, Hne).
  assert (N10 : (t1 =? t0)%nat = false) by (apply Nat.eqb_neq; auto).
  cbn [spec_block_gates forallb valid_op].
  rewrite E0, E1, N01, N10. reflexivity.
Qed.

Lemma apply_schedule_tape (s : list (list R * list nat)) :
  Forall call_ok s ->
  forall tape,
    apply_schedule U_SU4 s tape
    = Ok (tt, tape ++ flat_map (fun pw =>
                                  spec_block_gates (fun i => nth i (fst pw) 0)
                                                   (nth 0 (snd pw) 0%nat)
                                                   (nth 1 (snd pw) 0%nat)) s).
Proof.
  unfold apply_schedule.
  induction 1 as [|[p w] s (Hp & Hw & Hd) Hs IH]; intros tape;
    cbn [for_ flat_map].
  - unfold ret. rewrite app_nil_r. reflexivity.
  - cbn [fst snd] in *. unfold bind at 1.
    destruct w as [|a [|b [|? ?]]]; try discriminate Hw.
    rewrite (U_SU4_tape p a b tape Hp Hd). rewrite IH.
    rewrite <- app_assoc. reflexivity.
Qed.

Lemma data_embedding_tape (X : list R) (tape : list op) :
  length X = 256%nat ->
  data_embedding X tape
  = Ok (tt, tape ++ [AmplitudeEmbedding X (range 0 8 1) true]).
Proof.
  intros H. unfold data_embedding, qml_AmplitudeEmbedding. rewrite H.
  reflexivity.
Qed.

Lemma QCNN_record (X params : list R) :
  length X = 256%nat -> length params = 45%nat ->
  record (QCNN_qfunc X params) = Ok (expval (PauliZ 4), QCNN_tape X params).
Proof.
  intros HX H. destruct (slice_lengths params H) as (H1 & H2 & H3 & _).
  unfold record, QCNN_qfunc. unfold bind at 1.
  rewrite (data_embedding_tape X [] HX).
  unfold bind at 1. rewrite ansatz_schedule.
  rewrite apply_schedule_tape.
  - reflexivity.
  - unfold spec_schedule. schedule_ok.
Qed.

Lemma QCNN_gates_valid (X params : list R) :
  forallb (valid_op dev) (tl (QCNN_tape X params)) = true.
Proof. reflexivity. Qed.

(* ------------------------------------------------------------------ *)
(** ** The matrix of the two-qubit block *)
(* ------------------------------------------------------------------ *)

Lemma adjoint_mul_tdot (M : list (tensor 2)) (i j : nat) :
  adjoint_mul M i j = tdot (nth i M (tzero 2)) (nth j M (tzero 2)).
Proof.
  unfold adjoint_mul, entry, amplitude.
  generalize (nth i M (tzero 2)), (nth j M (tzero 2)).
  intros [[a b] [c d]] [[a' b'] [c' d']].
  cbn [Nat.pow Nat.mul Nat.add seq fold_right flatten app nth tdot fst snd].
  ring.
Qed.

Lemma basis_state_orthonormal (i j : nat) :
  (i < 4)%nat -> (j < 4)%nat ->
  tdot (basis_state 2 i) (basis_state 2 j) = if (i =? j)%nat then C1 else C0.
Proof.
  intros Hi Hj.
  assert (Ei : (i = 0 \/ i = 1 \/ i = 2 \/ i = 3)%nat) by lia.
  assert (Ej : (j = 0 \/ j = 1 \/ j = 2 \/ j = 3)%nat) by lia.
  clear Hi Hj.
  destruct Ei as [-> | [-> | [-> | ->]]];
    destruct Ej as [-> | [-> | [-> | ->]]];
    cbv [basis_state reshape seq Nat.pow Nat.mul Nat.add map Nat.eqb firstn
         skipn hd tdot fst snd];
    c_unfold; f_equal; ring.
Qed.

Lemma tape_matrix_columns (tape : list op) :
  forallb (valid_op 2) tape = true ->
  exists M, tape_matrix 2 tape = Ok M /\ length M = 4%nat /\
            forall j, (j < 4)%nat -> run tape (basis_state 2 j) = Ok (nth j M (tzero 2)).
Proof.
  intros Hv. unfold tape_matrix.
  destruct (run_valid 2 tape Hv (basis_state 2 0)) as [x0 E0].
  destruct (run_valid 2 tape Hv (basis_state 2 1)) as [x1 E1].
  destruct (run_valid 2 tape Hv (basis_state 2 2)) as [x2 E2].
  destruct (run_valid 2 tape Hv (basis_state 2 3)) as [x3 E3].
  exists [x0; x1; x2; x3].
  cbn [Nat.pow Nat.mul Nat.add seq list_comp].
  rewrite E0, E1, E2, E3. cbn [rbind]. repeat split.
  intros j Hj.
  do 4 (destruct j as [|j]; [assumption|]). lia.
Qed.

(** C4: for every 15-parameter vector the 4x4 matrix M of the two-qubit
    block (on either order of the two wires of a two-wire register) is
    unitary over the exact reals: every entry (i, j) of the conjugate
    transpose of M times M is 1 on the diagonal and 0 off it. *)
Theorem C4_block_matrix_unitary (params : list R) (t0 t1 : nat) :
  length params = 15%nat ->
  (t0 < 2)%nat -> (t1 < 2)%nat -> t0 <> t1 ->
  exists M : list (tensor 2),
    U_SU4_matrix params t0 t1 = Ok M /\
    length M = 4%nat /\
    forall i j, (i < 4)%nat -> (j < 4)%nat ->
      adjoint_mul M i j = if (i =? j)%nat then C1 else C0.
Proof.
  intros Hp H0 H1 Hne.
  unfold U_SU4_matrix, record. rewrite (U_SU4_tape params t0 t1 [] Hp Hne).
  cbn [rbind snd app].
  pose proof (block_gates_valid 2 (fun i => nth i params 0) t0 t1 H0 H1 Hne)
    as Hv.
  destruct (tape_matrix_columns _ Hv) as (M & EM & HL & Hcol).
  exists M. repeat split; try assumption.
  intros i j Hi Hj. rewrite adjoint_mul_tdot.
  rewrite (run_isometry 2 _ _ _ _ _ (Hcol i Hi) (Hcol j Hj)).
  apply basis_state_orthonormal; assumption.
Qed.

Lemma C4_block_matrix_unitary_witness :
  length zero_block_params = 15%nat /\
  (0 < 2)%nat /\ (1 < 2)%nat /\ 0%nat <> 1%nat /\
  exists M : list (tensor 2),
    U_SU4_matrix zero_block_params 0 1 = Ok M /\
    length M = 4%nat /\
    forall i j, (i < 4)%nat -> (j < 4)%nat ->
      adjoint_mul M i j = if (i =? j)%nat then C1 else C0.
Proof.
  assert (H0 : (0 < 2)%nat) by lia.
  assert (H1 : (1 < 2)%nat) by lia.
  assert (Hne : 0%nat <> 1%nat) by discriminate.
  repeat split; try assumption.
  exact (C4_block_matrix_unitary zero_block_params 0 1 eq_refl H0 H1 Hne).
Defined.

(* ------------------------------------------------------------------ *)
(** ** The embedding *)
(* ------------------------------------------------------------------ *)

Lemma flatten_reshape (n : nat) (l : list C) :
  length l = (2 ^ n)%nat -> flatten (reshape n l) = l.
Proof.
  revert l. induction n as [|n IH]; intros l H; cbn [reshape flatten fst snd].
  - destruct l as [|z [|? ?]]; try discriminate H. reflexivity.
  - cbn [Nat.pow] in H.
    rewrite !IH.
    + apply firstn_skipn.
    + rewrite length_skipn. lia.
    + rewrite length_firstn. lia.
Qed.

Lemma norm2_flatten (n : nat) (x : tensor n) :
  norm2 x = Rsum (map Cnorm2 (flatten x)).
Proof.
  induction n as [|n IH]; cbn [norm2 flatten].
  - unfold Rsum; cbn [map fold_right]. ring.
  - destruct x as [l r]; cbn [fst snd]. rewrite map_app, (IH l), (IH r).
    generalize (map Cnorm2 (flatten l)) as u. unfold Rsum.
    induction u as [|a u IHu]; cbn [app fold_right]; [ring|].
    rewrite <- IHu. ring.
Qed.

Lemma sumsq_nonneg (X : list R) : 0 <= sumsq X.
Proof.
  unfold sumsq. induction X as [|x X IH]; cbn [fold_right]; [lra|nra].
Qed.

Lemma Rsum_normalized (X : list R) (N : R) :
  N <> 0 ->
  Rsum (map Cnorm2 (map (fun x => RtoC (x / N)) X)) = sumsq X / (N * N).
Proof.
  intros HN. unfold Rsum, sumsq.
  induction X as [|x X IH]; cbn [map fold_right].
  - field. assumption.
  - rewrite IH. c_unfold. field. assumption.
Qed.

Lemma l2norm_sqr (X : list R) : l2norm X * l2norm X = sumsq X.
Proof. apply sqrt_sqrt, sumsq_nonneg. Qed.

Lemma embedding_wires : range 0 8 1 = seq 0 dev.
Proof. reflexivity. Qed.

Lemma amplitude_embedding_dev (X : list R) :
  length X = 256%nat ->
  amplitude_embedding dev X (range 0 8 1) true
  = if Req_dec_T (l2norm X) 0 then Err InvalidInputError else Ok (embedded X).
Proof.
  intros HL. unfold amplitude_embedding. rewrite embedding_wires.
  destruct (list_eq_dec Nat.eq_dec (seq 0 dev) (seq 0 dev)) as [_|ne];
    [|contradiction ne; reflexivity].
  rewrite HL, length_seq.
  replace (256 =? 2 ^ dev)%nat with true by reflexivity.
  reflexivity.
Qed.

Lemma amplitude_embedding_ok (X : list R) :
  valid_features X ->
  amplitude_embedding dev X (range 0 8 1) true = Ok (embedded X).
Proof.
  intros [HL HN]. rewrite (amplitude_embedding_dev X HL).
  destruct (Req_dec_T (l2norm X) 0) as [E|_]; [contradiction|reflexivity].
Qed.

Lemma embedded_unit_norm (X : list R) :
  valid_features X ->
  norm2 (embedded X) = 1.
Proof.
  intros [HL HN]. unfold embedded.
  rewrite norm2_flatten, flatten_reshape.
  - rewrite Rsum_normalized by assumption. rewrite l2norm_sqr.
    rewrite <- l2norm_sqr. field. assumption.
  - rewrite length_map, HL. reflexivity.
Qed.

(* ------------------------------------------------------------------ *)
(** ** The expectation value *)
(* ------------------------------------------------------------------ *)

Lemma expval_Z_bound (n w : nat) (x : tensor n) :
  - norm2 x <= expval_Z w x <= norm2 x.
Proof.
  revert w x. induction n as [|n IH]; intros w x; cbn [expval_Z norm2].
  - pose proof (Cnorm2_nonneg x). lra.
  - destruct x as [l r]; cbn [fst snd]. destruct w as [|w].
    + pose proof (norm2_nonneg n l). pose proof (norm2_nonneg n r). lra.
    + pose proof (IH w l). pose proof (IH w r). lra.
Qed.

(** The circuit on valid inputs: the state it prepares, every state on the
    way there, and the value it returns. *)
Lemma QCNN_prefix_state (X params : list R) (k : nat) :
  valid_features X ->
  exists psi : tensor dev,
    execute dev (firstn (S k) (QCNN_tape X params)) = Ok psi /\ norm2 psi = 1.
Proof.
  intros HX.
  change (firstn (S k) (QCNN_tape X params))
    with (AmplitudeEmbedding X (range 0 8 1) true
          :: firstn k (tl (QCNN_tape X params))).
  cbn [execute]. rewrite (amplitude_embedding_ok X HX). cbn [rbind].
  pose proof (forallb_firstn _ _ k _ (QCNN_gates_valid X params)) as Hv.
  destruct (run_valid dev _ Hv
              (embedded X)) as [psi E].
  exists psi. split; [exact E|].
  rewrite (run_norm2 _ _ _ _ E). apply embedded_unit_norm, HX.
Qed.

Lemma QCNN_value (X params : list R) :
  valid_features X -> length params = 45%nat ->
  exists psi : tensor dev,
    execute dev (QCNN_tape X params) = Ok psi /\
    norm2 psi = 1 /\
    QCNN X params = Ok (expval_Z 4 psi).
Proof.
  intros HX HP.
  destruct (QCNN_prefix_state X params (length (QCNN_tape X params)) HX)
    as (psi & E & N).
  rewrite firstn_all2 in E by lia.
  exists psi. repeat split; try assumption.
  unfold QCNN, qnode. rewrite (QCNN_record X params (proj1 HX) HP).
  cbn [rbind fst snd]. rewrite E. reflexivity.
Qed.

Lemma l2norm_head_nonzero (x : R) (X : list R) : x <> 0 -> l2norm (x :: X) <> 0.
Proof.
  intros Hx. unfold l2norm. pose proof (sumsq_nonneg X) as HX.
  assert (0 < sumsq (x :: X)) as Hpos.
  { unfold sumsq in *. cbn [fold_right]. nra. }
  pose proof (sqrt_lt_R0 _ Hpos). lra.
Qed.

Lemma one_hot_valid : valid_features one_hot.
Proof.
  split; [reflexivity|]. apply l2norm_head_nonzero. lra.
Qed.

(** C3: for every feature vector of length 256 with nonzero norm and every
    45-element parameter vector the circuit (embedding, three layers,
    measurement) returns a value: the expectation of Pauli-Z on wire 4 in
    the state the tape prepares, a real number in [-1, 1].  The result is
    a function of (features, parameters) alone. *)
Theorem C3_circuit_expectation (X params : list R) :
  length X = 256%nat -> l2norm X <> 0 -> length params = 45%nat ->
  exists psi : tensor dev,
    record (QCNN_qfunc X params) = Ok (expval (PauliZ 4), QCNN_tape X params) /\
    execute dev (QCNN_tape X params) = Ok psi /\
    QCNN X params = Ok (expval_Z 4 psi) /\
    -1 <= expval_Z 4 psi <= 1.
Proof.
  intros HL HN HP.
  destruct (QCNN_value X params (conj HL HN) HP) as (psi & E & N & V).
  exists psi. repeat split; try assumption.
  - apply QCNN_record; assumption.
  - pose proof (expval_Z_bound dev 4 psi). lra.
  - pose proof (expval_Z_bound dev 4 psi). lra.
Qed.

Lemma C3_circuit_expectation_witness :
  length one_hot = 256%nat /\
  l2norm one_hot <> 0 /\
  length zero_params = 45%nat /\
  exists psi : tensor dev,
    record (QCNN_qfunc one_hot zero_params)
    = Ok (expval (PauliZ 4), QCNN_tape one_hot zero_params) /\
    execute dev (QCNN_tape one_hot zero_params) = Ok psi /\
    QCNN one_hot zero_params = Ok (expval_Z 4 psi) /\
    -1 <= expval_Z 4 psi <= 1.
Proof.
  destruct one_hot_valid as [HL HN].
  split; [exact HL|]. split; [exact HN|]. split; [reflexivity|].
  exact (C3_circuit_expectation one_hot zero_params HL HN eq_refl).
Defined.

(** C5: unit norm is an invariant of the state.  From any unit-norm state
    of the 8-wire register, a two-qubit block on any pair of distinct valid
    wires can be run, and after every one of its gates (hence after the
    whole block) the squared magnitudes again sum to 1.  Hence in the
    circuit itself, for valid features and 45 parameters, the state has unit
    norm after every operation from the embedding through the last layer. *)
Theorem C5_unit_norm_invariant
  (params : list R) (t0 t1 : nat) (psi : tensor dev) :
  length params = 15%nat ->
  (t0 < dev)%nat -> (t1 < dev)%nat -> t0 <> t1 ->
  norm2 psi = 1 ->
  (exists tape,
      record (U_SU4 params [t0; t1]) = Ok (tt, tape) /\
      forall k, exists psi' : tensor dev,
          run (firstn k tape) psi = Ok psi' /\ norm2 psi' = 1)
  /\
  (forall (X qparams : list R) (k : nat),
      valid_features X -> length qparams = 45%nat ->
      record (QCNN_qfunc X qparams)
      = Ok (expval (PauliZ 4), QCNN_tape X qparams) /\
      exists psi' : tensor dev,
        execute dev (firstn (S k) (QCNN_tape X qparams)) = Ok psi' /\
        norm2 psi' = 1).
Proof.
  intros HP H0 H1 Hne Hpsi. split.
  - eexists. split.
    + unfold record. rewrite (U_SU4_tape params t0 t1 [] HP Hne).
      reflexivity.
    + intros k. cbn [app].
      pose proof (block_gates_valid dev (fun i => nth i params 0) t0 t1
                    H0 H1 Hne) as Hv.
      apply (forallb_firstn _ _ k) in Hv.
      destruct (run_valid dev _ Hv psi) as [psi' E].
      exists psi'. split; [exact E|].
      rewrite (run_norm2 _ _ _ _ E). exact Hpsi.
  - intros X qparams k HX HQ. split.
    + apply QCNN_record; [apply HX|exact HQ].
    + apply QCNN_prefix_state, HX.
Qed.

Lemma C5_unit_norm_invariant_witness :
  length zero_block_params = 15%nat /\ (0 < dev)%nat /\ (7 < dev)%nat /\
  0%nat <> 7%nat /\ norm2 (embedded one_hot) = 1 /\
  exists tape,
    record (U_SU4 zero_block_params [0; 7]%nat) = Ok (tt, tape) /\
    forall k, exists psi' : tensor dev,
        run (firstn k tape) (embedded one_hot) = Ok psi' /\ norm2 psi' = 1.
Proof.
  assert (H0 : (0 < dev)%nat) by (unfold dev; lia).
  assert (H1 : (7 < dev)%nat) by (unfold dev; lia).
  assert (Hne : 0%nat <> 7%nat) by discriminate.
  assert (Hpsi : norm2 (embedded one_hot) = 1)
    by (apply embedded_unit_norm, one_hot_valid).
  repeat split; try assumption.
  exact (proj1 (C5_unit_norm_invariant zero_block_params 0 7
                  (embedded one_hot) eq_refl H0 H1 Hne Hpsi)).
Defined.

Lemma embed_ok (X : list R) :
  valid_features X ->
  embed X = Ok (embedded X).
Proof.
  intros HX.
  unfold embed, record. rewrite (data_embedding_tape X [] (proj1 HX)).
  cbn [rbind snd app execute].
  rewrite (amplitude_embedding_ok X HX). reflexivity.
Qed.

Lemma embed_zero_norm (X : list R) :
  length X = 256%nat -> l2norm X = 0 -> embed X = Err InvalidInputError.
Proof.
  intros HL HZ.
  unfold embed, record. rewrite (data_embedding_tape X [] HL).
  cbn [rbind snd app execute].
  rewrite (amplitude_embedding_dev X HL).
  destruct (Req_dec_T (l2norm X) 0) as [_|ne]; [reflexivity|contradiction].
Qed.

Lemma embedded_amplitude (X : list R) (i : nat) :
  length X = 256%nat -> (i < 256)%nat ->
  amplitude (embedded X) i
  = (nth i X 0 / l2norm X, 0).
Proof.
  intros HL Hi. unfold amplitude, embedded.
  rewrite flatten_reshape by (rewrite length_map, HL; reflexivity).
  rewrite (nth_indep _ C0 (RtoC (0 / l2norm X)))
    by (rewrite length_map, HL; exact Hi).
  rewrite (map_nth (fun x => RtoC (x / l2norm X))). reflexivity.
Qed.

(** C6: the embedding of a real feature vector of length 256 with nonzero
    Euclidean norm is the state whose amplitude at every index i is the
    i-th feature divided by the norm, with imaginary part zero, so its
    squared amplitudes sum to 1; for a vector of norm zero the embedding
    fails with an invalid-input error and returns no state. *)
Theorem C6_embedding (X : list R) :
  length X = 256%nat ->
  (l2norm X <> 0 ->
   exists psi : tensor dev,
     embed X = Ok psi /\
     (forall i, (i < 256)%nat ->
                amplitude psi i = (nth i X 0 / l2norm X, 0)) /\
     norm2 psi = 1)
  /\
  (l2norm X = 0 -> embed X = Err InvalidInputError).
Proof.
  intros HL. split.
  - intros HN.
    exists (embedded X).
    repeat split.
    + apply embed_ok. split; assumption.
    + intros i Hi. apply embedded_amplitude; assumption.
    + apply embedded_unit_norm. split; assumption.
  - apply embed_zero_norm, HL.
Qed.

Lemma C6_embedding_witness :
  length one_hot = 256%nat /\ l2norm one_hot <> 0 /\
  exists psi : tensor dev,
    embed one_hot = Ok psi /\
    (forall i, (i < 256)%nat ->
               amplitude psi i = (nth i one_hot 0 / l2norm one_hot, 0)) /\
    norm2 psi = 1.
Proof.
  destruct one_hot_valid as [HL HN].
  split; [exact HL|]. split; [exact HN|].
  exact (proj1 (C6_embedding one_hot HL) HN).
Defined.

(* ------------------------------------------------------------------ *)
(** ** Loss and accuracy *)
(* ------------------------------------------------------------------ *)

Lemma square_loss_loop (labels predictions : list R) (acc : R) :
  fold_left (fun loss lp => loss + (fst lp - snd lp) ^ 2)
            (zip labels predictions) acc
  = acc + Rsum (map (fun pl => (fst pl - snd pl) ^ 2) (zip predictions labels)).
Proof.
  revert predictions acc. unfold Rsum.
  induction labels as [|l labels IH]; intros [|p predictions] acc;
    cbn [zip fold_left map fold_right fst snd]; try ring.
  rewrite IH. ring.
Qed.

Lemma square_loss_mse (labels predictions : list R) :
  labels <> [] ->
  square_loss labels predictions = Ok (spec_mse predictions labels).
Proof.
  intros H. unfold square_loss, spec_mse.
  destruct labels as [|l labels]; [contradiction|].
  cbn [length Nat.eqb]. rewrite square_loss_loop. f_equal. f_equal. ring.
Qed.

Lemma accuracy_loop (labels predictions : list R) (acc : nat) :
  fold_left (fun acc lp =>
               if counted_correct (fst lp) (snd lp) then (acc + 1)%nat else acc)
            (zip labels predictions) acc
  = (acc + length (filter (fun pl => counted_correct (snd pl) (fst pl))
                          (zip predictions labels)))%nat.
Proof.
  revert predictions acc.
  induction labels as [|l labels IH]; intros [|p predictions] acc;
    cbn [zip fold_left filter length fst snd]; try lia.
  rewrite IH. destruct (counted_correct l p); cbn [length]; lia.
Qed.

Lemma zip_length_le (A B : Type) (xs : list A) (ys : list B) :
  (length (zip xs ys) <= length ys)%nat.
Proof.
  revert ys. induction xs as [|x xs IH]; intros [|y ys]; cbn; try lia.
  specialize (IH ys). lia.
Qed.

Lemma count_correct_le (predictions labels : list R) :
  (length (filter (fun pl => counted_correct (snd pl) (fst pl))
                  (zip predictions labels)) <= length labels)%nat.
Proof.
  etransitivity; [apply filter_length_le|apply zip_length_le].
Qed.

Lemma predictions_exist (params : list R) (X : list (list R)) :
  length params = 45%nat -> Forall valid_features X ->
  exists predictions,
    list_comp (fun x => QCNN x params) X = Ok predictions /\
    Forall2 (fun x p => QCNN x params = Ok p /\ -1 <= p <= 1) X predictions.
Proof.
  intros HP. induction 1 as [|x X Hx HX (ps & E & F)]; cbn [list_comp].
  - exists []. split; [reflexivity|constructor].
  - destruct (QCNN_value x params Hx HP) as (psi & _ & N & V).
    exists (expval_Z 4 psi :: ps). rewrite V, E. cbn [rbind].
    split; [reflexivity|]. constructor; [|exact F].
    split; [exact V|]. pose proof (expval_Z_bound dev 4 psi). lra.
Qed.

(** C7: for every non-empty batch of (feature vector, label) pairs with
    valid feature vectors and labels in {0, 1}, and every 45-element
    parameter vector, every example has a prediction, the expectation value
    the circuit returns for it, and the loss is the mean over the batch of
    the squared differences between prediction and label. *)
Theorem C7_cost_is_mean_squared_error
  (params : list R) (batch : list (list R * R)) :
  batch <> [] ->
  length params = 45%nat ->
  Forall (fun ex => valid_features (fst ex) /\ (snd ex = 0 \/ snd ex = 1)) batch ->
  exists predictions : list R,
    Forall2 (fun ex p => QCNN (fst ex) params = Ok p) batch predictions /\
    cost params (map fst batch) (map snd batch)
    = Ok (Rsum (map (fun pl => (fst pl - snd pl) ^ 2)
                    (zip predictions (map snd batch)))
          / INR (length batch)).
Proof.
  intros Hne HP Hb.
  assert (HX : Forall valid_features (map fst batch)).
  { apply Forall_map. eapply Forall_impl; [|exact Hb]. intros ex [H _]. exact H. }
  destruct (predictions_exist params _ HP HX) as (ps & E & F).
  exists ps. split.
  - clear E HX Hb Hne. revert ps F.
    induction batch as [|ex batch IH]; intros ps F; inversion F; subst.
    + constructor.
    + constructor; [tauto|]. apply IH. assumption.
  - unfold cost. rewrite E. cbn [rbind].
    rewrite square_loss_mse.
    + unfold spec_mse. rewrite length_map. reflexivity.
    + destruct batch; [contradiction|discriminate].
Qed.

Lemma C7_cost_is_mean_squared_error_witness :
  [(one_hot, 1); (one_hot, 0)] <> [] /\ length zero_params = 45%nat /\
  exists predictions : list R,
    Forall2 (fun ex p => QCNN (fst ex) zero_params = Ok p)
            [(one_hot, 1); (one_hot, 0)] predictions /\
    cost zero_params (map fst [(one_hot, 1); (one_hot, 0)])
                     (map snd [(one_hot, 1); (one_hot, 0)])
    = Ok (Rsum (map (fun pl => (fst pl - snd pl) ^ 2)
                    (zip predictions (map snd [(one_hot, 1); (one_hot, 0)])))
          / INR (length [(one_hot, 1); (one_hot, 0)])).
Proof.
  assert (Hne : [(one_hot, 1); (one_hot, 0)] <> []) by discriminate.
  assert (Hb : Forall (fun ex => valid_features (fst ex)
                                 /\ (snd ex = 0 \/ snd ex = 1))
                      [(one_hot, 1); (one_hot, 0)]).
  { constructor; [split; [apply one_hot_valid|right; reflexivity]|].
    constructor; [split; [apply one_hot_valid|left; reflexivity]|].
    constructor. }
  split; [exact Hne|]. split; [reflexivity|].
  exact (C7_cost_is_mean_squared_error zero_params _ Hne eq_refl Hb).
Defined.

Lemma counted_correct_spec (l p : R) : counted_correct l p = spec_correct p l.
Proof.
  unfold counted_correct, spec_correct. rewrite (Rabs_minus_sym l p).
  reflexivity.
Qed.

Lemma counted_correct_iff (l p : R) :
  counted_correct l p = true <-> Rabs (p - l) < 1 / 2.
Proof.
  unfold counted_correct. rewrite (Rabs_minus_sym l p).
  destruct (Rlt_dec (Rabs (p - l)) (1 / 2)); split; intros; try assumption;
    try reflexivity; try discriminate; contradiction.
Qed.

Lemma accuracy_test_spec (predictions labels : list R) :
  labels <> [] ->
  accuracy_test predictions labels = Ok (spec_accuracy predictions labels).
Proof.
  intros H. unfold accuracy_test, spec_accuracy.
  destruct labels as [|l labels]; [contradiction|].
  cbn [length Nat.eqb]. rewrite accuracy_loop. cbn [Nat.add].
  do 4 f_equal. apply filter_ext. intros [p l']. apply counted_correct_spec.
Qed.

Lemma spec_accuracy_range (predictions labels : list R) :
  labels <> [] -> 0 <= spec_accuracy predictions labels <= 1.
Proof.
  intros H. unfold spec_accuracy.
  assert (Hc := count_correct_le predictions labels).
  rewrite (filter_ext _ (fun pl => spec_correct (fst pl) (snd pl))) in Hc
    by (intros [p l]; apply counted_correct_spec).
  set (c := length (filter _ _)) in *.
  assert (0 < INR (length labels)) as Hpos.
  { apply lt_0_INR. destruct labels; [contradiction|cbn; lia]. }
  apply le_INR in Hc. pose proof (pos_INR c).
  split.
  - apply Rmult_le_pos; [assumption|]. left. apply Rinv_0_lt_compat, Hpos.
  - apply Rmult_le_reg_r with (INR (length labels)); [exact Hpos|].
    unfold Rdiv. rewrite Rmult_assoc, Rinv_l by lra. lra.
Qed.

(** C8: for every non-empty list of labels and equally long list of
    predictions, the accuracy is the number of examples whose prediction p
    satisfies |p - label| < 0.5 divided by the number of examples, a real
    number in [0, 1].  The function only reads its two arguments and takes
    no parameter vector. *)
Theorem C8_accuracy_is_fraction_correct (predictions labels : list R) :
  labels <> [] ->
  length predictions = length labels ->
  accuracy_test predictions labels
  = Ok (INR (length (filter (fun pl => spec_correct (fst pl) (snd pl))
                            (zip predictions labels)))
        / INR (length labels))
  /\ 0 <= spec_accuracy predictions labels <= 1
  /\ (forall p l, spec_correct p l = true <-> Rabs (p - l) < 1 / 2).
Proof.
  intros Hne _. split; [|split].
  - apply accuracy_test_spec, Hne.
  - apply spec_accuracy_range, Hne.
  - intros p l. rewrite <- counted_correct_spec. apply counted_correct_iff.
Qed.

Lemma C8_accuracy_is_fraction_correct_witness :
  [1; 1; 0] <> [] /\ length [9 / 10; 1 / 5; -1] = length [1; 1; 0] /\
  accuracy_test [9 / 10; 1 / 5; -1] [1; 1; 0]
  = Ok (INR (length (filter (fun pl => spec_correct (fst pl) (snd pl))
                            (zip [9 / 10; 1 / 5; -1] [1; 1; 0])))
        / INR (length [1; 1; 0]))
  /\ 0 <= spec_accuracy [9 / 10; 1 / 5; -1] [1; 1; 0] <= 1
  /\ (forall p l, spec_correct p l = true <-> Rabs (p - l) < 1 / 2).
Proof.
  assert (Hne : [1; 1; 0] <> []) by discriminate.
  split; [exact Hne|]. split; [reflexivity|].
  exact (C8_accuracy_is_fraction_correct [9 / 10; 1 / 5; -1] [1; 1; 0]
           Hne eq_refl).
Defined.

(** The decision rule on concrete predictions. *)
Example accuracy_test_example :
  accuracy_test [9 / 10; 1 / 5; -1] [1; 1; 0] = Ok (1 / 3).
Proof.
  unfold accuracy_test. cbn [zip fold_left fst snd length Nat.eqb].
  unfold counted_correct.
  destruct (Rlt_dec (Rabs (1 - 9 / 10)) (1 / 2)) as [_|n];
    [|exfalso; apply n; rewrite Rabs_pos_eq; lra].
  destruct (Rlt_dec (Rabs (1 - 1 / 5)) (1 / 2)) as [h|_];
    [exfalso; rewrite Rabs_pos_eq in h; lra|].
  destruct (Rlt_dec (Rabs (0 - -1)) (1 / 2)) as [h|_];
    [exfalso; rewrite Rabs_pos_eq in h; lra|].
  cbn. f_equal. lra.
Qed.

Lemma accuracy_test_single (p l : R) :
  accuracy_test [p] [l] = Ok (if counted_correct l p then 1 else 0).
Proof.
  unfold accuracy_test. cbn [zip fold_left fst snd length Nat.eqb].
  destruct (counted_correct l p); cbn [Nat.add INR]; f_equal; field.
Qed.

(** C9: for a prediction p in [-1, 1] the rule |label - p| < 0.5 of the
    accuracy loop is not a symmetric midpoint threshold: a prediction
    p <= -0.5 is counted incorrect for label 0 and for label 1; a label-1
    example is counted correct exactly when p > 0.5, a label-0 example
    exactly when -0.5 < p < 0.5.  On a single example the accuracy is 1 when
    the example is counted and 0 when it is not. *)
Theorem C9_decision_rule_asymmetric (p : R) :
  -1 <= p <= 1 ->
  (p <= - (1 / 2) ->
   counted_correct 0 p = false /\ counted_correct 1 p = false) /\
  (counted_correct 1 p = true <-> p > 1 / 2) /\
  (counted_correct 0 p = true <-> - (1 / 2) < p < 1 / 2) /\
  (forall l, accuracy_test [p] [l] = Ok (if counted_correct l p then 1 else 0)).
Proof.
  intros Hp.
  assert (H1 : counted_correct 1 p = true <-> p > 1 / 2).
  { rewrite counted_correct_iff. unfold Rabs.
    destruct (Rcase_abs (p - 1)); split; intros; lra. }
  assert (H0 : counted_correct 0 p = true <-> - (1 / 2) < p < 1 / 2).
  { rewrite counted_correct_iff. unfold Rabs.
    destruct (Rcase_abs (p - 0)); split; intros; lra. }
  split; [|split; [assumption|split; [assumption|]]].
  - intros Hlow. split.
    + apply not_true_is_false. intros E. apply H0 in E. lra.
    + apply not_true_is_false. intros E. apply H1 in E. lra.
  - intros l. apply accuracy_test_single.
Qed.

Lemma C9_decision_rule_asymmetric_witness :
  -1 <= -1 <= 1 /\
  counted_correct 0 (-1) = false /\ counted_correct 1 (-1) = false.
Proof.
  assert (H : -1 <= -1 <= 1) by lra.
  assert (L : -1 <= - (1 / 2)) by lra.
  split; [exact H|].
  exact (proj1 (C9_decision_rule_asymmetric (-1) H) L).
Defined.

(** C10: on an empty label list the loss and the accuracy both fail with a
    division by zero; on a non-empty label list both return a value. *)
Theorem C10_division_by_label_count (labels predictions : list R) :
  square_loss [] predictions = Err ZeroDivisionError /\
  accuracy_test predictions [] = Err ZeroDivisionError /\
  (labels <> [] ->
   (exists v, square_loss labels predictions = Ok v) /\
   (exists a, accuracy_test predictions labels = Ok a) /\
   INR (length labels) <> 0).
Proof.
  split; [reflexivity|]. split; [reflexivity|].
  intros H. repeat split.
  - eexists. apply square_loss_mse, H.
  - eexists. apply accuracy_test_spec, H.
  - apply not_0_INR. destruct labels; [contradiction|discriminate].
Qed.

Lemma C10_division_by_label_count_witness :
  [1; 0] <> [] /\
  (exists v, square_loss [1; 0] [1 / 2; 1 / 2] = Ok v) /\
  (exists a, accuracy_test [1 / 2; 1 / 2] [1; 0] = Ok a) /\
  INR (length [1; 0]) <> 0.
Proof.
  assert (H : [1; 0] <> []) by discriminate.
  split; [exact H|].
  exact (proj2 (proj2 (C10_division_by_label_count [1; 0] [1 / 2; 1 / 2])) H).
Defined.

(** An empty batch reaches the division through [cost] as well. *)
Example cost_empty_batch (params : list R) :
  cost params [] [] = Err ZeroDivisionError.
Proof. reflexivity. Qed.

(** A feature vector of norm zero is rejected. *)
Example embed_zero_vector : embed (repeat 0 256) = Err InvalidInputError.
Proof.
  apply embed_zero_norm; [apply repeat_length|].
  unfold l2norm. replace (sumsq (repeat 0 256)) with 0; [apply sqrt_0|].
  unfold sumsq. generalize 256%nat as n.
  induction n as [|n IH]; cbn [repeat fold_right]; [reflexivity|].
  rewrite <- IH. ring.
Qed.

(* ------------------------------------------------------------------ *)
(** ** The end-to-end scenario: one-hot features, all-zero parameters *)
(* ------------------------------------------------------------------ *)

Lemma tscale_C1 (n : nat) (x : tensor n) : tscale C1 x = x.
Proof.
  induction n as [|n IH]; cbn in *.
  - c_ring.
  - destruct x as [l r]; cbn. rewrite !IH. reflexivity.
Qed.

Lemma tscale_C0 (n : nat) (x : tensor n) : tscale C0 x = tzero n.
Proof.
  induction n as [|n IH]; cbn in *.
  - c_ring.
  - destruct x as [l r]; cbn. rewrite !IH. reflexivity.
Qed.

Lemma tadd_tzero_r (n : nat) (x : tensor n) : tadd x (tzero n) = x.
Proof.
  induction n as [|n IH]; cbn in *.
  - c_ring.
  - destruct x as [l r]; cbn. rewrite !IH. reflexivity.
Qed.

Lemma tadd_tzero_l (n : nat) (x : tensor n) : tadd (tzero n) x = x.
Proof.
  induction n as [|n IH]; cbn in *.
  - c_ring.
  - destruct x as [l r]; cbn. rewrite !IH. reflexivity.
Qed.

Lemma apply1_identity (n w : nat) (x : tensor n) : apply1 identity2 w x = x.
Proof.
  revert w. induction n as [|n IH]; intros w; [reflexivity|].
  destruct x as [l r]. destruct w as [|w]; cbn [apply1 identity2 m00 m01 m10 m11 fst snd].
  - rewrite !tscale_C1, !tscale_C0, tadd_tzero_r, tadd_tzero_l. reflexivity.
  - rewrite !IH. reflexivity.
Qed.

Lemma half_zero : 0 / 2 = 0.
Proof. lra. Qed.

Lemma U3_matrix_zero : U3_matrix 0 0 0 = identity2.
Proof.
  unfold U3_matrix, identity2, Cexp. rewrite half_zero, Rplus_0_r, cos_0, sin_0.
  f_equal; c_unfold; f_equal; ring.
Qed.

Lemma RY_matrix_zero : RY_matrix 0 = identity2.
Proof.
  unfold RY_matrix, identity2. rewrite half_zero, cos_0, sin_0.
  f_equal; c_unfold; f_equal; ring.
Qed.

Lemma RZ_matrix_zero : RZ_matrix 0 = identity2.
Proof.
  unfold RZ_matrix, identity2, Cexp. rewrite half_zero, Ropp_0, cos_0, sin_0.
  reflexivity.
Qed.

Lemma flip_tzero (n t : nat) : flip t (tzero n) = tzero n.
Proof.
  revert t. induction n as [|n IH]; intros [|t]; cbn [flip tzero fst snd];
    rewrite ?IH; reflexivity.
Qed.

Lemma ctl_swap_tzero (n c : nat) :
  ctl_swap c (tzero n) (tzero n) = (tzero n, tzero n).
Proof.
  revert c. induction n as [|n IH]; intros [|c]; cbn [ctl_swap tzero fst snd];
    rewrite ?IH; reflexivity.
Qed.

Lemma ctl_swap_ket0 (n c : nat) :
  ctl_swap c (ket0 n) (tzero n) = (ket0 n, tzero n).
Proof.
  revert c. induction n as [|n IH]; intros [|c];
    cbn [ctl_swap ket0 tzero fst snd]; rewrite ?IH, ?ctl_swap_tzero;
    reflexivity.
Qed.

Lemma cnot_tzero (n c t : nat) : cnot c t (tzero n) = tzero n.
Proof.
  revert c t. induction n as [|n IH]; intros [|c] [|t];
    cbn [cnot tzero fst snd];
    rewrite ?IH, ?flip_tzero, ?ctl_swap_tzero; reflexivity.
Qed.

Lemma cnot_ket0 (n c t : nat) : cnot c t (ket0 n) = ket0 n.
Proof.
  revert c t. induction n as [|n IH]; intros [|c] [|t];
    cbn [cnot ket0 fst snd];
    rewrite ?IH, ?flip_tzero, ?ctl_swap_ket0, ?cnot_tzero; reflexivity.
Qed.

Lemma apply_op_zero_angle (n : nat) (o : op) :
  zero_angle o -> valid_op n o = true -> apply_op o (ket0 n) = Ok (ket0 n).
Proof.
  destruct o as [f ws nm|th ph de w|th w|ph w|c t];
    cbn [zero_angle valid_op apply_op]; intros Hz Hv; try contradiction.
  - destruct Hz as (-> & -> & ->). rewrite Hv, U3_matrix_zero, apply1_identity.
    reflexivity.
  - rewrite Hz, Hv, RY_matrix_zero, apply1_identity. reflexivity.
  - rewrite Hz, Hv, RZ_matrix_zero, apply1_identity. reflexivity.
  - rewrite Hv, cnot_ket0. reflexivity.
Qed.

Lemma run_zero_angle (n : nat) (tape : list op) :
  Forall zero_angle tape -> forallb (valid_op n) tape = true ->
  run tape (ket0 n) = Ok (ket0 n).
Proof.
  induction 1 as [|o tape Ho Ht IH]; cbn [forallb run]; intros Hv.
  - reflexivity.
  - apply andb_prop in Hv. destruct Hv as [Hv1 Hv2].
    rewrite (apply_op_zero_angle n o Ho Hv1). cbn [rbind]. apply IH, Hv2.
Qed.

Lemma norm2_tzero (n : nat) : norm2 (tzero n) = 0.
Proof.
  induction n as [|n IH]; cbn [norm2 tzero fst snd].
  - c_unfold. ring.
  - rewrite IH. ring.
Qed.

Lemma norm2_ket0 (n : nat) : norm2 (ket0 n) = 1.
Proof.
  induction n as [|n IH]; cbn [norm2 ket0 fst snd].
  - c_unfold. ring.
  - rewrite IH, norm2_tzero. ring.
Qed.

Lemma expval_Z_tzero (n w : nat) : expval_Z w (tzero n) = 0.
Proof.
  revert w. induction n as [|n IH]; intros w; cbn [expval_Z tzero fst snd].
  - c_unfold. ring.
  - destruct w as [|w]; rewrite ?IH, ?norm2_tzero; ring.
Qed.

Lemma expval_Z_ket0 (n w : nat) : expval_Z w (ket0 n) = 1.
Proof.
  revert w. induction n as [|n IH]; intros w; cbn [expval_Z ket0 fst snd].
  - c_unfold. ring.
  - destruct w as [|w];
      rewrite ?IH, ?norm2_ket0, ?norm2_tzero, ?expval_Z_tzero; ring.
Qed.

Lemma sumsq_repeat_zero (n : nat) : sumsq (repeat 0 n) = 0.
Proof.
  unfold sumsq. induction n as [|n IH]; cbn [repeat fold_right];
    [reflexivity|]. rewrite IH. ring.
Qed.

Lemma l2norm_one_hot : l2norm one_hot = 1.
Proof.
  unfold l2norm, one_hot.
  replace (sumsq (1 :: repeat 0 255)) with 1; [apply sqrt_1|].
  change (sumsq (1 :: repeat 0 255)) with (1 * 1 + sumsq (repeat 0 255)).
  rewrite sumsq_repeat_zero. ring.
Qed.

Lemma embedded_one_hot : embedded one_hot = ket0 dev.
Proof.
  unfold embedded. rewrite l2norm_one_hot. unfold one_hot.
  cbn [map]. rewrite map_repeat.
  replace (RtoC (1 / 1)) with C1 by (c_unfold; f_equal; field).
  replace (RtoC (0 / 1)) with C0 by (c_unfold; f_equal; field).
  reflexivity.
Qed.

Lemma zero_params_tape :
  Forall zero_angle (tl (QCNN_tape one_hot zero_params)).
Proof.
  cbn [QCNN_tape tl spec_schedule flat_map spec_block_gates app fst snd].
  repeat (constructor; [cbn [zero_angle]; repeat split; reflexivity|]).
  constructor.
Qed.

(** The end-to-end scenario of the specification: on the one-hot feature
    vector and 45 zero parameters every block is a wire exchange, the
    register stays in |0...0>, and the circuit returns 1. *)
Example QCNN_golden_value : QCNN one_hot zero_params = Ok 1.
Proof.
  unfold QCNN, qnode.
  rewrite (QCNN_record one_hot zero_params eq_refl eq_refl).
  cbn [rbind fst snd].
  change (QCNN_tape one_hot zero_params)
    with (AmplitudeEmbedding one_hot (range 0 8 1) true
          :: tl (QCNN_tape one_hot zero_params)).
  cbn [execute]. rewrite (amplitude_embedding_ok one_hot one_hot_valid).
  cbn [rbind]. rewrite embedded_one_hot.
  rewrite (run_zero_angle dev _ zero_params_tape
             (QCNN_gates_valid one_hot zero_params)).
  cbn [rbind measure]. replace (valid_wire dev 4) with true by reflexivity.
  rewrite expval_Z_ket0. reflexivity.
Qed.

(** A parameter vector shorter than 15 makes the block raise. *)
Example U_SU4_short_params :
  record (U_SU4 [0; 0] [0; 1]%nat) = Err IndexError.
Proof. reflexivity. Qed.

(* ------------------------------------------------------------------ *)
(** ** The engine on basis states *)
(* ------------------------------------------------------------------ *)

(** Wire 0 is the most significant bit of the flat index: on two wires the
    index 2 is |10>.  CNOT with control 0 and target 1 sends it to |11>. *)
Example cnot_forward : cnot 0 1 (basis_state 2 2) = basis_state 2 3.
Proof. reflexivity. Qed.

(** With the control reading 0 nothing moves. *)
Example cnot_control_off : cnot 0 1 (basis_state 2 1) = basis_state 2 1.
Proof. reflexivity. Qed.

(** Control 1, target 0: |01> goes to |11>. *)
Example cnot_reverse : cnot 1 0 (basis_state 2 1) = basis_state 2 3.
Proof. reflexivity. Qed.

(** Control 2, target 0 on three wires: |001> goes to |101>. *)
Example cnot_distant : cnot 2 0 (basis_state 3 1) = basis_state 3 5.
Proof. reflexivity. Qed.

(** A gate on wire 1 of two wires writes its first column into the
    amplitudes of |00> and |01>. *)
Example apply1_column (m : mat2) :
  flatten (apply1 m 1 (basis_state 2 0)) = [m00 m; m10 m; C0; C0].
Proof.
  destruct m as [[a a'] [b b'] [c c'] [d d']].
  cbv [basis_state reshape seq Nat.pow Nat.mul Nat.add map Nat.eqb firstn
       skipn hd apply1 tadd tscale flatten app fst snd m00 m01 m10 m11].
  c_unfold. repeat f_equal; ring.
Qed.

(** Pauli-Z on wire 1 reads -1 on |01>, on wire 0 it reads +1. *)
Example expval_Z_basis :
  expval_Z 1 (basis_state 2 1) = -1 /\ expval_Z 0 (basis_state 2 1) = 1.
Proof.
  cbv [basis_state reshape seq Nat.pow Nat.mul Nat.add map Nat.eqb firstn
       skipn hd expval_Z norm2 fst snd].
  c_unfold. split; ring.
Qed.

(* ================================================================== *)
(** * Further properties of the notebook's code *)
(* ================================================================== *)

(* ------------------------------------------------------------------ *)
(** ** Which parameter and wire lists the block accepts *)
(* ------------------------------------------------------------------ *)

Lemma U_SU4_raises_index (params : list R) (wires : list nat)
  (tape : list op) :
  (length params < 6)%nat \/ (length wires < 2)%nat ->
  U_SU4 params wires tape = Err IndexError.
Proof.
  intros [H|H].
  - do 6 (destruct params as [|? params];
          [destruct wires as [|? [|? ?]]; reflexivity|]).
    cbn [length] in H. lia.
  - destruct wires as [|? [|? ?]]; [| |cbn [length] in H; lia];
      do 6 (destruct params as [|? params]; [reflexivity|]); reflexivity.
Qed.

Lemma U_SU4_raises_wire (params : list R) (wires : list nat)
  (tape : list op) :
  (6 <= length params)%nat -> (2 <= length wires)%nat ->
  nth 0 wires 0%nat = nth 1 wires 0%nat ->
  U_SU4 params wires tape = Err WireError.
Proof.
  intros Hp Hw He.
  do 6 (destruct params as [|? params]; [cbn [length] in Hp; lia|]).
  destruct wires as [|t0 [|t1 wires]]; try (cbn [length] in Hw; lia).
  cbn [nth] in He. subst t1. unfold U_SU4.
  cbv [bind lift getitem nth_error queue qml_CNOT raise].
  rewrite Nat.eqb_refl. reflexivity.
Qed.

Lemma U_SU4_raises_short (params : list R) (wires : list nat)
  (tape : list op) :
  (length params < 15)%nat -> (2 <= length wires)%nat ->
  nth 0 wires 0%nat <> nth 1 wires 0%nat ->
  U_SU4 params wires tape = Err IndexError.
Proof.
  intros Hp Hw Hne.
  destruct wires as [|t0 [|t1 wires]]; try (cbn [length] in Hw; lia).
  cbn [nth] in Hne.
  assert (N01 : (t0 =? t1)%nat = false) by (apply Nat.eqb_neq, Hne).
  assert (N10 : (t1 =? t0)%nat = false) by (apply Nat.eqb_neq; auto).
  do 15 (destruct params as [|? params];
         [unfold U_SU4;
          repeat (cbv [bind lift getitem nth_error queue qml_CNOT raise];
                  rewrite ?N01, ?N10);
          reflexivity|]).
  cbn [length] in Hp. lia.
Qed.

Lemma U_SU4_accepts (params : list R) (wires : list nat) (tape : list op) :
  (15 <= length params)%nat -> (2 <= length wires)%nat ->
  nth 0 wires 0%nat <> nth 1 wires 0%nat ->
  U_SU4 params wires tape
  = Ok (tt, tape ++ spec_block_gates (fun i => nth i params 0)
                                     (nth 0 wires 0%nat) (nth 1 wires 0%nat)).
Proof.
  intros Hp Hw Hne.
  do 15 (destruct params as [|? params]; [cbn [length] in Hp; lia|]).
  destruct wires as [|t0 [|t1 wires]]; try (cbn [length] in Hw; lia).
  cbn [nth] in Hne.
  assert (N01 : (t0 =? t1)%nat = false) by (apply Nat.eqb_neq, Hne).
  assert (N10 : (t1 =? t0)%nat = false) by (apply Nat.eqb_neq; auto).
  unfold U_SU4.
  repeat (cbv [bind lift getitem nth_error queue qml_CNOT raise];
          rewrite ?N01, ?N10).
  cbv [spec_block_gates nth].
  repeat rewrite <- app_assoc. reflexivity.
Qed.

(** X1: what the block does, by input.  On at least 15 parameters and at
    least 2 wires of which the first two differ it queues the ten gates
    built from the first 15 parameters and the first 2 wires, and reads
    nothing beyond them.  On fewer than 6 parameters or fewer than 2 wires
    it raises IndexError.  On at least 6 parameters and two equal wires it
    raises WireError at its first CNOT.  On fewer than 15 parameters and
    two different wires it raises IndexError. *)
Theorem X1_U_SU4_outcome (params : list R) (wires : list nat) (tape : list op) :
  ((15 <= length params)%nat /\ (2 <= length wires)%nat /\
   nth 0 wires 0%nat <> nth 1 wires 0%nat ->
   U_SU4 params wires tape
   = Ok (tt, tape ++ spec_block_gates (fun i => nth i params 0)
                                      (nth 0 wires 0%nat) (nth 1 wires 0%nat)) /\
   U_SU4 params wires tape = U_SU4 (firstn 15 params) (firstn 2 wires) tape)
  /\
  ((length params < 6)%nat \/ (length wires < 2)%nat ->
   U_SU4 params wires tape = Err IndexError)
  /\
  ((6 <= length params)%nat /\ (2 <= length wires)%nat /\
   nth 0 wires 0%nat = nth 1 wires 0%nat ->
   U_SU4 params wires tape = Err WireError)
  /\
  ((length params < 15)%nat /\ (2 <= length wires)%nat /\
   nth 0 wires 0%nat <> nth 1 wires 0%nat ->
   U_SU4 params wires tape = Err IndexError).
Proof.
  split; [|split; [|split]].
  - intros (Hp & Hw & Hne). split; [apply U_SU4_accepts; assumption|].
    rewrite (U_SU4_accepts params wires tape Hp Hw Hne).
    do 15 (destruct params as [|? params]; [cbn [length] in Hp; lia|]).
    destruct wires as [|t0 [|t1 wires]]; try (cbn [length] in Hw; lia).
    rewrite (U_SU4_accepts _ _ tape); [reflexivity| | |exact Hne];
      cbn [firstn length]; lia.
  - apply U_SU4_raises_index.
  - intros (Hp & Hw & He). apply U_SU4_raises_wire; assumption.
  - intros (Hp & Hw & Hne). apply U_SU4_raises_short; assumption.
Qed.

Lemma X1_U_SU4_outcome_witness :
  ((6 <= length zero_block_params)%nat /\ (2 <= length [3; 3]%nat)%nat /\
   nth 0 [3; 3]%nat 0%nat = nth 1 [3; 3]%nat 0%nat) /\
  U_SU4 zero_block_params [3; 3]%nat [] = Err WireError.
Proof.
  assert (H : (6 <= length zero_block_params)%nat /\
              (2 <= length [3; 3]%nat)%nat /\
              nth 0 [3; 3]%nat 0%nat = nth 1 [3; 3]%nat 0%nat)
    by (cbn; repeat split; lia).
  split; [exact H|].
  exact (proj1 (proj2 (proj2 (X1_U_SU4_outcome zero_block_params
                                [3; 3]%nat []))) H).
Defined.

(* ------------------------------------------------------------------ *)
(** ** Which parameter vectors the ansatz and the circuit accept *)
(* ------------------------------------------------------------------ *)

Lemma slice_firstn (A : Type) (l : list A) (k lo hi : nat) :
  (hi <= k)%nat -> slice (firstn k l) lo hi = slice l lo hi.
Proof.
  intros H. unfold slice.
  rewrite skipn_firstn_comm, firstn_firstn.
  f_equal. lia.
Qed.

Lemma ansatz_firstn (U : block) (params : list R) (tape : list op) :
  QCNN_structure_without_pooling U params tape
  = QCNN_structure_without_pooling U (firstn 45 params) tape.
Proof.
  unfold QCNN_structure_without_pooling.
  rewrite !slice_firstn by lia. reflexivity.
Qed.

Lemma apply_schedule_app (U : block) (s1 s2 : list (list R * list nat))
  (tape : list op) :
  apply_schedule U (s1 ++ s2) tape
  = match apply_schedule U s1 tape with
    | Ok (_, tape') => apply_schedule U s2 tape'
    | Err e => Err e
    end.
Proof.
  unfold apply_schedule. revert tape.
  induction s1 as [|[p w] s1 IH]; intros tape; cbn [app for_].
  - reflexivity.
  - unfold bind. cbn [fst snd].
    destruct (U p w tape) as [[[] tape']|e]; [apply IH|reflexivity].
Qed.

Lemma apply_schedule_raises (s1 s2 : list (list R * list nat))
  (p : list R) (t0 t1 : nat) (tape : list op) :
  Forall call_ok s1 ->
  (length p < 15)%nat -> t0 <> t1 ->
  apply_schedule U_SU4 (s1 ++ (p, [t0; t1]) :: s2) tape = Err IndexError.
Proof.
  intros H1 Hp Hne. rewrite apply_schedule_app, (apply_schedule_tape s1 H1).
  unfold apply_schedule. cbn [for_ fst snd]. unfold bind at 1.
  rewrite U_SU4_raises_short by (cbn [length nth]; auto). reflexivity.
Qed.

Lemma slice_length (A : Type) (l : list A) (lo hi : nat) :
  length (slice l lo hi) = Nat.min (hi - lo) (length l - lo).
Proof. unfold slice. rewrite length_firstn, length_skipn. reflexivity. Qed.

Lemma ansatz_raises (params : list R) (tape : list op) :
  (length params < 45)%nat ->
  QCNN_structure_without_pooling U_SU4 params tape = Err IndexError.
Proof.
  intros H. rewrite ansatz_schedule.
  pose proof (slice_length _ params 0 15) as L1.
  pose proof (slice_length _ params 15 30) as L2.
  pose proof (slice_length _ params 30 45) as L3.
  set (p1 := slice params 0 15) in *. set (p2 := slice params 15 30) in *.
  set (p3 := slice params 30 45) in *.
  destruct (Nat.lt_ge_cases (length params) 15) as [C1|C1].
  - apply (apply_schedule_raises [] _ p1 0 7 tape);
      [constructor|lia|discriminate].
  - destruct (Nat.lt_ge_cases (length params) 30) as [C2|C2].
    + apply (apply_schedule_raises
               [(p1, [0; 7]); (p1, [0; 1]); (p1, [2; 3]); (p1, [4; 5]);
                (p1, [6; 7]); (p1, [1; 2]); (p1, [3; 4]); (p1, [5; 6])]%nat
               _ p2 0 6 tape); [|lia|discriminate].
      schedule_ok.
    + apply (apply_schedule_raises
               [(p1, [0; 7]); (p1, [0; 1]); (p1, [2; 3]); (p1, [4; 5]);
                (p1, [6; 7]); (p1, [1; 2]); (p1, [3; 4]); (p1, [5; 6]);
                (p2, [0; 6]); (p2, [0; 2]); (p2, [4; 6]); (p2, [2; 4])]%nat
               [] p3 0 4 tape); [|lia|discriminate].
      schedule_ok.
Qed.

(** The gates the ansatz queues for [params]. *)
Lemma ansatz_accepts (params : list R) (tape : list op) :
  (45 <= length params)%nat ->
  QCNN_structure_without_pooling U_SU4 params tape
  = Ok (tt, tape ++ tl (QCNN_tape [] params)).
Proof.
  intros H. rewrite ansatz_schedule. rewrite apply_schedule_tape.
  - reflexivity.
  - pose proof (slice_length _ params 0 15) as L1.
    pose proof (slice_length _ params 15 30) as L2.
    pose proof (slice_length _ params 30 45) as L3.
    unfold spec_schedule. schedule_ok.
Qed.

(** X2: with the block U_SU4 the ansatz succeeds exactly on at least 45
    parameters.  It then appends 130 gates to the tape, every one of them
    a gate on valid, distinct wires of the 8-wire device, and it reads
    nothing beyond the first 45 parameters; on fewer than 45 parameters it
    raises IndexError. *)
Theorem X2_ansatz_outcome (params : list R) (tape : list op) :
  ((45 <= length params)%nat ->
   exists gates,
     QCNN_structure_without_pooling U_SU4 params tape = Ok (tt, tape ++ gates) /\
     length gates = 130%nat /\
     forallb (valid_op dev) gates = true /\
     QCNN_structure_without_pooling U_SU4 (firstn 45 params) tape
     = Ok (tt, tape ++ gates))
  /\
  ((length params < 45)%nat ->
   QCNN_structure_without_pooling U_SU4 params tape = Err IndexError).
Proof.
  split.
  - intros H. exists (tl (QCNN_tape [] params)).
    split; [apply ansatz_accepts, H|].
    split; [reflexivity|].
    split; [apply QCNN_gates_valid|].
    rewrite <- ansatz_firstn. apply ansatz_accepts, H.
  - apply ansatz_raises.
Qed.

Lemma X2_ansatz_outcome_witness :
  (length [1; 2; 3] < 45)%nat /\
  QCNN_structure_without_pooling U_SU4 [1; 2; 3] [] = Err IndexError.
Proof.
  assert (H : (length [1; 2; 3] < 45)%nat) by (cbn; lia).
  split; [exact H|].
  exact (proj2 (X2_ansatz_outcome [1; 2; 3] []) H).
Defined.

Lemma data_embedding_raises (X : list R) (tape : list op) :
  length X <> 256%nat -> data_embedding X tape = Err InvalidInputError.
Proof.
  intros H. unfold data_embedding, qml_AmplitudeEmbedding.
  change (2 ^ length (range 0 8 1))%nat with 256%nat.
  apply Nat.eqb_neq in H. rewrite H. reflexivity.
Qed.

Lemma QCNN_record_rejects (X params : list R) :
  length X <> 256%nat -> record (QCNN_qfunc X params) = Err InvalidInputError.
Proof.
  intros H. unfold record, QCNN_qfunc. unfold bind at 1.
  rewrite (data_embedding_raises X [] H). reflexivity.
Qed.

Lemma QCNN_record_raises (X params : list R) :
  length X = 256%nat -> (length params < 45)%nat ->
  record (QCNN_qfunc X params) = Err IndexError.
Proof.
  intros HX H. unfold record, QCNN_qfunc. unfold bind at 1.
  rewrite (data_embedding_tape X [] HX). unfold bind at 1.
  rewrite (ansatz_raises params _ H). reflexivity.
Qed.

Lemma QCNN_record_accepts (X params : list R) :
  length X = 256%nat -> (45 <= length params)%nat ->
  record (QCNN_qfunc X params) = Ok (expval (PauliZ 4), QCNN_tape X params).
Proof.
  intros HX H. unfold record, QCNN_qfunc. unfold bind at 1.
  rewrite (data_embedding_tape X [] HX). unfold bind at 1.
  rewrite (ansatz_accepts params _ H). reflexivity.
Qed.

Lemma amplitude_embedding_rejects (X : list R) :
  ~ valid_features X ->
  amplitude_embedding dev X (range 0 8 1) true = Err InvalidInputError.
Proof.
  intros H. destruct (Nat.eq_dec (length X) 256) as [HL|HL].
  - rewrite (amplitude_embedding_dev X HL).
    destruct (Req_dec_T (l2norm X) 0) as [_|ne]; [reflexivity|].
    contradiction H. split; assumption.
  - unfold amplitude_embedding. rewrite embedding_wires.
    destruct (list_eq_dec Nat.eq_dec (seq 0 dev) (seq 0 dev)) as [_|ne];
      [|contradiction ne; reflexivity].
    rewrite length_seq. change (2 ^ dev)%nat with 256%nat.
    apply Nat.eqb_neq in HL. rewrite HL. reflexivity.
Qed.

(** The circuit with enough parameters: prepare, run the gates, measure. *)
Lemma QCNN_unfold (X params : list R) :
  (45 <= length params)%nat ->
  QCNN X params
  = rbind (amplitude_embedding dev X (range 0 8 1) true) (fun psi0 =>
    rbind (run (tl (QCNN_tape [] params)) psi0) (fun psi =>
    Ok (expval_Z 4 psi))).
Proof.
  intros H. unfold QCNN, qnode.
  destruct (Nat.eq_dec (length X) 256) as [HL|HL].
  - rewrite (QCNN_record_accepts X params HL H).
    cbn [rbind fst snd].
    change (QCNN_tape X params)
      with (AmplitudeEmbedding X (range 0 8 1) true
            :: tl (QCNN_tape [] params)).
    cbn [execute].
    destruct (amplitude_embedding dev X (range 0 8 1) true) as [psi0|e];
      cbn [rbind]; [|reflexivity].
    destruct (run (tl (QCNN_tape [] params)) psi0) as [psi|e];
      cbn [rbind]; reflexivity.
  - rewrite (QCNN_record_rejects X params HL).
    rewrite amplitude_embedding_rejects by (intros [HL' _]; contradiction).
    reflexivity.
Qed.

Lemma QCNN_value_accepts (X params : list R) :
  valid_features X -> (45 <= length params)%nat ->
  exists psi : tensor dev,
    run (tl (QCNN_tape [] params)) (embedded X) = Ok psi /\
    norm2 psi = 1 /\
    QCNN X params = Ok (expval_Z 4 psi).
Proof.
  intros HX HP.
  destruct (run_valid dev _ (QCNN_gates_valid [] params) (embedded X))
    as [psi E].
  exists psi. split; [exact E|]. split.
  - rewrite (run_norm2 _ _ _ _ E). apply embedded_unit_norm, HX.
  - rewrite (QCNN_unfold X params HP), (amplitude_embedding_ok X HX).
    cbn [rbind]. rewrite E. reflexivity.
Qed.

Lemma QCNN_rejects_length (X params : list R) :
  length X <> 256%nat -> QCNN X params = Err InvalidInputError.
Proof.
  intros H. unfold QCNN, qnode. rewrite (QCNN_record_rejects X params H).
  reflexivity.
Qed.

Lemma QCNN_raises (X params : list R) :
  length X = 256%nat -> (length params < 45)%nat ->
  QCNN X params = Err IndexError.
Proof.
  intros HX H. unfold QCNN, qnode. rewrite (QCNN_record_raises X params HX H).
  reflexivity.
Qed.

Lemma well_scaled_valid (X : list R) : well_scaled X -> valid_features X.
Proof.
  intros (HL & _ & HS). split; [exact HL|]. unfold l2norm.
  pose proof (sqrt_le_1_alt 1 (sumsq X) HS) as H. rewrite sqrt_1 in H. lra.
Qed.

Lemma one_hot_well_scaled : well_scaled one_hot.
Proof.
  split; [reflexivity|]. split.
  - unfold one_hot. constructor; [rewrite Rabs_R1; lra|].
    apply Forall_forall. intros x Hin. apply repeat_spec in Hin. subst x.
    rewrite Rabs_R0. lra.
  - unfold one_hot.
    change (sumsq (1 :: repeat 0 255)) with (1 * 1 + sumsq (repeat 0 255)).
    rewrite sumsq_repeat_zero. lra.
Qed.

(** X3: what the circuit returns, by input.  A feature vector that is not
    of length 256 is refused with the invalid-input error when the
    embedding is created, whatever the parameters are.  On features of
    ordinary size, fewer than 45 parameters raise IndexError, and at least
    45 parameters give a value in [-1, 1] that depends on the first 45
    parameters only.  On 256 features of norm zero and at least 45
    parameters the circuit raises the invalid-input error. *)
Theorem X3_QCNN_outcome (X params : list R) :
  (length X <> 256%nat -> QCNN X params = Err InvalidInputError) /\
  (well_scaled X -> (length params < 45)%nat ->
   QCNN X params = Err IndexError) /\
  (length X = 256%nat -> l2norm X = 0 -> (45 <= length params)%nat ->
   QCNN X params = Err InvalidInputError) /\
  (well_scaled X -> (45 <= length params)%nat ->
   exists v, QCNN X params = Ok v /\ -1 <= v <= 1 /\
             QCNN X (firstn 45 params) = Ok v).
Proof.
  split; [|split; [|split]].
  - apply QCNN_rejects_length.
  - intros HX HP. apply QCNN_raises; [apply HX|exact HP].
  - intros HL HZ HP. rewrite (QCNN_unfold X params HP).
    rewrite amplitude_embedding_rejects; [reflexivity|].
    intros [_ HN]. contradiction.
  - intros HW HP. pose proof (well_scaled_valid X HW) as HX.
    destruct (QCNN_value_accepts X params HX HP) as (psi & E & N & V).
    exists (expval_Z 4 psi). split; [exact V|]. split.
    + pose proof (expval_Z_bound dev 4 psi). lra.
    + rewrite QCNN_unfold by (rewrite length_firstn; lia).
      rewrite (amplitude_embedding_ok X HX). cbn [rbind].
      replace (tl (QCNN_tape [] (firstn 45 params)))
        with (tl (QCNN_tape [] params)).
      * rewrite E. reflexivity.
      * unfold QCNN_tape. cbn [tl]. rewrite !slice_firstn by lia. reflexivity.
Qed.

Lemma X3_QCNN_outcome_witness :
  well_scaled one_hot /\ (45 <= length (zero_params ++ [1%R]))%nat /\
  exists v, QCNN one_hot (zero_params ++ [1%R]) = Ok v /\ -1 <= v <= 1 /\
            QCNN one_hot (firstn 45 (zero_params ++ [1%R])) = Ok v.
Proof.
  assert (H : (45 <= length (zero_params ++ [1%R]))%nat) by (cbn; lia).
  split; [exact one_hot_well_scaled|]. split; [exact H|].
  exact (proj2 (proj2 (proj2 (X3_QCNN_outcome one_hot (zero_params ++ [1%R]))))
           one_hot_well_scaled H).
Defined.

(** A feature vector of the wrong length is refused before the parameters
    are read; two equal wires are refused by the block's first CNOT. *)
Example QCNN_wrong_length : QCNN [1; 1; 1] [1; 2; 3] = Err InvalidInputError.
Proof. apply QCNN_rejects_length. cbn. lia. Qed.

Example U_SU4_equal_wires :
  record (U_SU4 zero_block_params [0; 0]%nat) = Err WireError.
Proof. apply U_SU4_raises_wire; cbn; lia. Qed.

Lemma valid_features_dec (X : list R) :
  {valid_features X} + {~ valid_features X}.
Proof.
  unfold valid_features.
  destruct (Nat.eq_dec (length X) 256) as [HL|HL];
    [|right; intros [H _]; contradiction].
  destruct (Req_dec_T (l2norm X) 0) as [E|E];
    [right; intros [_ H]; contradiction|left; split; assumption].
Qed.

(* ------------------------------------------------------------------ *)
(** ** The wires each layer addresses *)
(* ------------------------------------------------------------------ *)

Lemma conv_layer1_schedule (U : block) (params : list R) (tape : list op) :
  conv_layer1 U params tape
  = apply_schedule U
      [(params, [0; 7]); (params, [0; 1]); (params, [2; 3]); (params, [4; 5]);
       (params, [6; 7]); (params, [1; 2]); (params, [3; 4]); (params, [5; 6])]%nat
      tape.
Proof.
  cbv [conv_layer1 apply_schedule]. cbn. unfold bind, ret.
  do 8 next_call U.
Qed.

Lemma conv_layer2_schedule (U : block) (params : list R) (tape : list op) :
  conv_layer2 U params tape
  = apply_schedule U
      [(params, [0; 6]); (params, [0; 2]); (params, [4; 6]); (params, [2; 4])]%nat
      tape.
Proof.
  cbv [conv_layer2 apply_schedule]. cbn. unfold bind, ret.
  do 4 next_call U.
Qed.

Lemma conv_layer3_schedule (U : block) (params : list R) (tape : list op) :
  conv_layer3 U params tape = apply_schedule U [(params, [0; 4]%nat)] tape.
Proof.
  cbv [conv_layer3 apply_schedule]. cbn. unfold bind, ret.
  next_call U.
Qed.

Lemma same_wires (l allowed : list nat) :
  forallb (fun w => existsb (Nat.eqb w) allowed) l = true ->
  forallb (fun w => existsb (Nat.eqb w) l) allowed = true ->
  forall w, In w l <-> In w allowed.
Proof.
  intros H1 H2 w. rewrite forallb_forall in H1, H2. split; intros Hw.
  - apply H1 in Hw. apply existsb_exists in Hw. destruct Hw as (v & Hv & E).
    apply Nat.eqb_eq in E. subst. exact Hv.
  - apply H2 in Hw. apply existsb_exists in Hw. destruct Hw as (v & Hv & E).
    apply Nat.eqb_eq in E. subst. exact Hv.
Qed.

Lemma layer_tape (s : list (list R * list nat)) (tape : list op) :
  Forall call_ok s ->
  exists gates,
    apply_schedule U_SU4 s tape = Ok (tt, tape ++ gates) /\
    gates = flat_map (fun pw => spec_block_gates (fun i => nth i (fst pw) 0)
                                                 (nth 0 (snd pw) 0%nat)
                                                 (nth 1 (snd pw) 0%nat)) s.
Proof.
  intros H. eexists. split; [apply apply_schedule_tape, H|reflexivity].
Qed.

(** X5: the pooling of the notebook is the choice of wires.  On a
    15-element parameter vector the first layer queues 80 gates that
    together address every wire 0..7; the second layer queues 40 gates on
    the wires 0, 2, 4, 6 and never addresses an odd wire; the third layer
    queues 10 gates on the wires 0 and 4 only. *)
Theorem X5_layer_wires (params : list R) (tape : list op) :
  length params = 15%nat ->
  (exists g1, conv_layer1 U_SU4 params tape = Ok (tt, tape ++ g1) /\
              length g1 = 80%nat /\
              forall w, In w (flat_map op_wires g1) <-> (w < 8)%nat) /\
  (exists g2, conv_layer2 U_SU4 params tape = Ok (tt, tape ++ g2) /\
              length g2 = 40%nat /\
              forall w, In w (flat_map op_wires g2) <-> In w [0; 2; 4; 6]%nat) /\
  (exists g3, conv_layer3 U_SU4 params tape = Ok (tt, tape ++ g3) /\
              length g3 = 10%nat /\
              forall w, In w (flat_map op_wires g3) <-> In w [0; 4]%nat).
Proof.
  intros H. split; [|split].
  - rewrite conv_layer1_schedule.
    destruct (layer_tape
                [(params, [0; 7]); (params, [0; 1]); (params, [2; 3]);
                 (params, [4; 5]); (params, [6; 7]); (params, [1; 2]);
                 (params, [3; 4]); (params, [5; 6])]%nat tape)
      as (g & E & ->); [schedule_ok|].
    eexists. split; [exact E|]. split; [reflexivity|].
    intros w. rewrite (same_wires _ (seq 0 8)) by reflexivity.
    rewrite in_seq. lia.
  - rewrite conv_layer2_schedule.
    destruct (layer_tape
                [(params, [0; 6]); (params, [0; 2]); (params, [4; 6]);
                 (params, [2; 4])]%nat tape)
      as (g & E & ->); [schedule_ok|].
    eexists. split; [exact E|]. split; [reflexivity|].
    apply same_wires; reflexivity.
  - rewrite conv_layer3_schedule.
    destruct (layer_tape [(params, [0; 4]%nat)] tape)
      as (g & E & ->); [schedule_ok|].
    eexists. split; [exact E|]. split; [reflexivity|].
    apply same_wires; reflexivity.
Qed.

Lemma X5_layer_wires_witness :
  length zero_block_params = 15%nat /\
  exists g2, conv_layer2 U_SU4 zero_block_params [] = Ok (tt, [] ++ g2) /\
             length g2 = 40%nat /\
             forall w, In w (flat_map op_wires g2) <-> In w [0; 2; 4; 6]%nat.
Proof.
  split; [reflexivity|].
  exact (proj1 (proj2 (X5_layer_wires zero_block_params [] eq_refl))).
Defined.

(* ------------------------------------------------------------------ *)
(** ** What the cost returns *)
(* ------------------------------------------------------------------ *)

Lemma predictions_accepts (params : list R) (X : list (list R)) :
  (45 <= length params)%nat -> Forall valid_features X ->
  exists predictions,
    list_comp (fun x => QCNN x params) X = Ok predictions /\
    length predictions = length X /\
    Forall (fun p => -1 <= p <= 1) predictions.
Proof.
  intros HP. induction 1 as [|x X Hx HX (ps & E & L & F)]; cbn [list_comp].
  - exists []. repeat split. constructor.
  - destruct (QCNN_value_accepts x params Hx HP) as (psi & _ & N & V).
    exists (expval_Z 4 psi :: ps). rewrite V, E. cbn [rbind length].
    split; [reflexivity|]. split; [congruence|]. constructor; [|exact F].
    pose proof (expval_Z_bound dev 4 psi). lra.
Qed.

Lemma predictions_rejects (params : list R) (X : list (list R)) :
  (45 <= length params)%nat -> Exists (fun x => ~ valid_features x) X ->
  list_comp (fun x => QCNN x params) X = Err InvalidInputError.
Proof.
  intros HP HX.
  induction X as [|x X IH]; [inversion HX|]. cbn [list_comp].
  destruct (valid_features_dec x) as [Hx|Hx].
  - destruct (QCNN_value_accepts x params Hx HP) as (psi & _ & _ & ->).
    cbn [rbind]. rewrite IH; [reflexivity|].
    inversion HX; subst; [contradiction|assumption].
  - rewrite (QCNN_unfold x params HP), (amplitude_embedding_rejects x Hx).
    reflexivity.
Qed.

Lemma predictions_raises (params : list R) (x : list R)
  (rest : list (list R)) :
  length x = 256%nat -> (length params < 45)%nat ->
  list_comp (fun x => QCNN x params) (x :: rest) = Err IndexError.
Proof.
  intros Hx HP. cbn [list_comp]. rewrite (QCNN_raises x params Hx HP).
  reflexivity.
Qed.

Lemma predictions_rejects_head (params : list R) (x : list R)
  (rest : list (list R)) :
  length x <> 256%nat ->
  list_comp (fun x => QCNN x params) (x :: rest) = Err InvalidInputError.
Proof.
  intros Hx. cbn [list_comp]. rewrite (QCNN_rejects_length x params Hx).
  reflexivity.
Qed.

Lemma Forall_well_scaled_valid (X : list (list R)) :
  Forall well_scaled X -> Forall valid_features X.
Proof. apply Forall_impl, well_scaled_valid. Qed.

Lemma Rsum_bounds (b : R) (l : list R) :
  Forall (fun x => 0 <= x <= b) l -> 0 <= Rsum l <= b * INR (length l).
Proof.
  unfold Rsum. induction 1 as [|x l Hx Hl IH].
  - cbn. lra.
  - cbn [fold_right length]. rewrite S_INR. lra.
Qed.

Lemma Forall_zip (A B : Type) (P : A -> Prop) (Q : B -> Prop)
  (xs : list A) (ys : list B) :
  Forall P xs -> Forall Q ys ->
  Forall (fun xy => P (fst xy) /\ Q (snd xy)) (zip xs ys).
Proof.
  intros HP. revert ys. induction HP as [|x xs Hx Hxs IH]; intros ys HQ.
  - constructor.
  - destruct HQ as [|y ys Hy Hys]; cbn [zip]; constructor; auto.
Qed.

Lemma square_loss_range (labels predictions : list R) :
  labels <> [] ->
  Forall (fun l => l = 0 \/ l = 1) labels ->
  Forall (fun p => -1 <= p <= 1) predictions ->
  exists v, square_loss labels predictions = Ok v /\ 0 <= v <= 4.
Proof.
  intros Hne HL HP. rewrite (square_loss_mse _ _ Hne).
  eexists. split; [reflexivity|]. unfold spec_mse.
  assert (Hb : Forall (fun x => 0 <= x <= 4)
                 (map (fun pl => (fst pl - snd pl) ^ 2) (zip predictions labels))).
  { apply Forall_map.
    eapply Forall_impl; [|apply (Forall_zip _ _ _ _ _ _ HP HL)].
    intros [p l] [Hp Hl]; cbn [fst snd] in *. destruct Hl; subst; nra. }
  apply Rsum_bounds in Hb. rewrite length_map in Hb.
  pose proof (zip_length_le _ _ predictions labels) as Hz. apply le_INR in Hz.
  assert (0 < INR (length labels)) as Hpos.
  { apply lt_0_INR. destruct labels; [contradiction|cbn; lia]. }
  split.
  - apply Rmult_le_pos; [lra|]. left. apply Rinv_0_lt_compat, Hpos.
  - apply Rmult_le_reg_r with (INR (length labels)); [exact Hpos|].
    unfold Rdiv. rewrite Rmult_assoc, Rinv_l by lra. lra.
Qed.

(** X6: what the cost returns, by input.  If the first feature vector is
    not of length 256 it raises the invalid-input error, whatever the
    parameters are; if the first feature vector is of ordinary size and
    there are fewer than 45 parameters it raises IndexError.  With at least
    45 parameters, a feature vector anywhere in X that is not of length 256
    or has norm zero raises the invalid-input error, before any label is
    read; feature vectors of ordinary size with no labels raise
    ZeroDivisionError, and with a non-empty list of labels in {0, 1} they
    give a loss in [0, 4]. *)
Theorem X6_cost_outcome (params : list R) (X : list (list R)) (Y : list R) :
  (forall x rest, X = x :: rest -> length x <> 256%nat ->
   cost params X Y = Err InvalidInputError) /\
  (forall x rest, X = x :: rest -> well_scaled x ->
   (length params < 45)%nat -> cost params X Y = Err IndexError) /\
  ((45 <= length params)%nat -> Exists (fun x => ~ valid_features x) X ->
   cost params X Y = Err InvalidInputError) /\
  ((45 <= length params)%nat -> Forall well_scaled X -> Y = [] ->
   cost params X Y = Err ZeroDivisionError) /\
  ((45 <= length params)%nat -> Forall well_scaled X -> Y <> [] ->
   Forall (fun l => l = 0 \/ l = 1) Y ->
   exists v, cost params X Y = Ok v /\ 0 <= v <= 4).
Proof.
  unfold cost. split; [|split; [|split; [|split]]].
  - intros x rest -> Hx. rewrite (predictions_rejects_head params x rest Hx).
    reflexivity.
  - intros x rest -> Hx HP.
    rewrite (predictions_raises params x rest (proj1 Hx) HP). reflexivity.
  - intros HP HX. rewrite (predictions_rejects params X HP HX). reflexivity.
  - intros HP HX ->. apply Forall_well_scaled_valid in HX.
    destruct (predictions_accepts params X HP HX) as (ps & -> & _ & _).
    reflexivity.
  - intros HP HX HY H01. apply Forall_well_scaled_valid in HX.
    destruct (predictions_accepts params X HP HX) as (ps & -> & _ & F).
    cbn [rbind]. apply square_loss_range; assumption.
Qed.

Lemma X6_cost_outcome_witness :
  (45 <= length zero_params)%nat /\ Forall well_scaled [one_hot; one_hot] /\
  [1; 0] <> [] /\ Forall (fun l => l = 0 \/ l = 1) [1; 0] /\
  exists v, cost zero_params [one_hot; one_hot] [1; 0] = Ok v /\ 0 <= v <= 4.
Proof.
  assert (HP : (45 <= length zero_params)%nat) by (cbn; lia).
  assert (HX : Forall well_scaled [one_hot; one_hot]).
  { constructor; [apply one_hot_well_scaled|].
    constructor; [apply one_hot_well_scaled|constructor]. }
  assert (HY : [1; 0] <> []) by discriminate.
  assert (H01 : Forall (fun l => l = 0 \/ l = 1) [1; 0]).
  { constructor; [right; reflexivity|].
    constructor; [left; reflexivity|constructor]. }
  split; [exact HP|]. split; [exact HX|]. split; [exact HY|].
  split; [exact H01|].
  exact (proj2 (proj2 (proj2 (proj2
           (X6_cost_outcome zero_params [one_hot; one_hot] [1; 0]))))
           HP HX HY H01).
Defined.

(* ------------------------------------------------------------------ *)
(** ** Loss and accuracy on lists of different lengths *)
(* ------------------------------------------------------------------ *)

Lemma zip_app_l (A B : Type) (xs more : list A) (ys : list B) :
  length ys = length xs -> zip (xs ++ more) ys = zip xs ys.
Proof.
  revert ys. induction xs as [|x xs IH]; intros [|y ys] H;
    try discriminate H; cbn [app zip].
  - destruct more; reflexivity.
  - f_equal. apply IH. injection H as H. exact H.
Qed.

Lemma zip_app_r (A B : Type) (xs : list A) (ys extra : list B) :
  length ys = length xs -> zip xs (ys ++ extra) = zip xs ys.
Proof.
  revert ys. induction xs as [|x xs IH]; intros [|y ys] H;
    try discriminate H; cbn [app zip].
  - reflexivity.
  - f_equal. apply IH. injection H as H. exact H.
Qed.

(** The sum the loop of [square_loss] accumulates. *)
Lemma square_loss_value (labels predictions : list R) :
  square_loss labels predictions
  = if (length labels =? 0)%nat then Err ZeroDivisionError
    else Ok (Rsum (map (fun pl => (fst pl - snd pl) ^ 2)
                       (zip predictions labels))
             / INR (length labels)).
Proof.
  unfold square_loss. rewrite square_loss_loop.
  destruct (length labels =? 0)%nat; [reflexivity|]. f_equal. f_equal. ring.
Qed.

(** The count the loop of [accuracy_test] accumulates. *)
Lemma accuracy_test_value (predictions labels : list R) :
  accuracy_test predictions labels
  = if (length labels =? 0)%nat then Err ZeroDivisionError
    else Ok (INR (length (filter (fun pl => spec_correct (fst pl) (snd pl))
                                 (zip predictions labels)))
             / INR (length labels)).
Proof.
  unfold accuracy_test. rewrite accuracy_loop. cbn [Nat.add].
  destruct (length labels =? 0)%nat; [reflexivity|].
  do 4 f_equal. apply filter_ext. intros [p l]. apply counted_correct_spec.
Qed.

(** X7: [square_loss] does not check that its two lists have the same
    length.  Predictions beyond the last label are ignored.  Labels beyond
    the last prediction add nothing to the sum but are counted in the
    divisor, so the result is the sum over the paired examples divided by
    the number of all labels.  Through [cost], a batch with labels and no
    feature vectors has loss 0. *)
Theorem X7_square_loss_unequal_lengths
  (labels more predictions extra : list R) :
  length predictions = length labels ->
  labels <> [] ->
  square_loss labels (predictions ++ extra) = square_loss labels predictions /\
  square_loss (labels ++ more) predictions
  = Ok (Rsum (map (fun pl => (fst pl - snd pl) ^ 2) (zip predictions labels))
        / INR (length labels + length more)) /\
  (forall params, cost params [] labels = Ok 0).
Proof.
  intros HL Hne. split; [|split].
  - rewrite !square_loss_value, zip_app_l by (symmetry; exact HL).
    reflexivity.
  - rewrite square_loss_value, zip_app_r by (symmetry; exact HL).
    rewrite length_app.
    destruct labels as [|l labels]; [contradiction|]. reflexivity.
  - intros params. unfold cost. cbn [list_comp rbind].
    rewrite square_loss_value.
    destruct labels as [|l labels]; [contradiction|].
    cbn [length Nat.eqb zip map]. f_equal. unfold Rsum. cbn [fold_right].
    unfold Rdiv. ring.
Qed.

Lemma X7_square_loss_unequal_lengths_witness :
  length [1 / 2] = length [1] /\ [1] <> [] /\
  square_loss ([1] ++ [0; 0; 0]) [1 / 2]
  = Ok (Rsum (map (fun pl => (fst pl - snd pl) ^ 2) (zip [1 / 2] [1]))
        / INR (length [1] + length [0; 0; 0])).
Proof.
  assert (Hne : [1] <> []) by discriminate.
  split; [reflexivity|]. split; [exact Hne|].
  exact (proj1 (proj2 (X7_square_loss_unequal_lengths
                         [1] [0; 0; 0] [1 / 2] [] eq_refl Hne))).
Defined.

(** X8: [accuracy_test] does not check that its two lists have the same
    length either.  Predictions beyond the last label are ignored; a label
    without a prediction is never counted correct but is counted in the
    divisor. *)
Theorem X8_accuracy_test_unequal_lengths
  (predictions extra labels more : list R) :
  length predictions = length labels ->
  labels <> [] ->
  accuracy_test (predictions ++ extra) labels
  = accuracy_test predictions labels /\
  accuracy_test predictions (labels ++ more)
  = Ok (INR (length (filter (fun pl => spec_correct (fst pl) (snd pl))
                            (zip predictions labels)))
        / INR (length labels + length more)).
Proof.
  intros HL Hne. split.
  - rewrite !accuracy_test_value, zip_app_l by (symmetry; exact HL).
    reflexivity.
  - rewrite accuracy_test_value, zip_app_r by (symmetry; exact HL).
    rewrite length_app.
    destruct labels as [|l labels]; [contradiction|]. reflexivity.
Qed.

Lemma X8_accuracy_test_unequal_lengths_witness :
  length [9 / 10] = length [1] /\ [1] <> [] /\
  accuracy_test [9 / 10] ([1] ++ [0; 0; 0])
  = Ok (INR (length (filter (fun pl => spec_correct (fst pl) (snd pl))
                            (zip [9 / 10] [1])))
        / INR (length [1] + length [0; 0; 0])).
Proof.
  assert (Hne : [1] <> []) by discriminate.
  split; [reflexivity|]. split; [exact Hne|].
  exact (proj2 (X8_accuracy_test_unequal_lengths
                  [9 / 10] [] [1] [0; 0; 0] eq_refl Hne)).
Defined.

(* ------------------------------------------------------------------ *)
(** ** Extreme values of the loss and of the accuracy *)
(* ------------------------------------------------------------------ *)

Lemma zip_length (A B : Type) (xs : list A) (ys : list B) :
  length xs = length ys -> length (zip xs ys) = length ys.
Proof.
  revert ys. induction xs as [|x xs IH]; intros [|y ys] H;
    try discriminate H; cbn [zip length]; [reflexivity|].
  f_equal. apply IH. injection H as H. exact H.
Qed.

Lemma Rsum_squares_nonneg (l : list (R * R)) :
  0 <= Rsum (map (fun pl => (fst pl - snd pl) ^ 2) l).
Proof.
  unfold Rsum. induction l as [|[p y] l IH]; cbn [map fold_right fst snd];
    [lra|]. pose proof (pow2_ge_0 (p - y)). lra.
Qed.

Lemma Rsum_squares_zero (predictions labels : list R) :
  length predictions = length labels ->
  (Rsum (map (fun pl => (fst pl - snd pl) ^ 2) (zip predictions labels)) = 0
   <-> predictions = labels).
Proof.
  revert labels. induction predictions as [|p ps IH]; intros [|l ls] H;
    try discriminate H.
  - cbn. tauto.
  - injection H as H. specialize (IH ls H).
    cbn [zip map fst snd]. unfold Rsum in *. cbn [fold_right].
    pose proof (Rsum_squares_nonneg (zip ps ls)) as Hn. unfold Rsum in Hn.
    pose proof (pow2_ge_0 (p - l)) as Hp.
    split.
    + intros E.
      assert (E1 : (p - l) ^ 2 = 0) by lra.
      assert (E2 : fold_right Rplus 0
                     (map (fun pl => (fst pl - snd pl) ^ 2) (zip ps ls)) = 0)
        by lra.
      apply IH in E2. subst ls. f_equal. nra.
    + intros [= -> ->]. apply proj2 in IH. rewrite (IH eq_refl). ring.
Qed.

Lemma filter_all (A : Type) (f : A -> bool) (l : list A) :
  length (filter f l) = length l <-> Forall (fun x => f x = true) l.
Proof.
  induction l as [|x l IH]; cbn [filter length].
  - split; [constructor|reflexivity].
  - pose proof (filter_length_le f l) as Hle.
    destruct (f x) eqn:E; cbn [length]; split.
    + intros [= H]. constructor; [exact E|apply IH, H].
    + intros H. inversion H; subst. f_equal. apply IH. assumption.
    + intros H. lia.
    + intros H. inversion H; subst. congruence.
Qed.

Lemma filter_none (A : Type) (f : A -> bool) (l : list A) :
  length (filter f l) = 0%nat <-> Forall (fun x => f x = false) l.
Proof.
  induction l as [|x l IH]; cbn [filter length].
  - split; [constructor|reflexivity].
  - destruct (f x) eqn:E; cbn [length]; split.
    + discriminate.
    + intros H. inversion H; subst. congruence.
    + intros H. constructor; [exact E|apply IH, H].
    + intros H. inversion H; subst. apply IH. assumption.
Qed.

Lemma spec_correct_iff (p l : R) :
  spec_correct p l = true <-> Rabs (p - l) < 1 / 2.
Proof. rewrite <- counted_correct_spec. apply counted_correct_iff. Qed.

Lemma Forall_equiv (A : Type) (P Q : A -> Prop) (l : list A) :
  (forall x, P x <-> Q x) -> (Forall P l <-> Forall Q l).
Proof.
  intros H. split; apply Forall_impl; intros x; apply H.
Qed.

Lemma ratio_one (c n : nat) : (0 < n)%nat -> (INR c / INR n = 1 <-> c = n).
Proof.
  intros Hn. apply lt_0_INR in Hn. split.
  - intros E. apply INR_eq.
    apply Rmult_eq_reg_r with (/ INR n); [|apply Rinv_neq_0_compat; lra].
    unfold Rdiv in E. rewrite E. field. lra.
  - intros ->. field. lra.
Qed.

Lemma ratio_zero (c n : nat) : (0 < n)%nat -> (INR c / INR n = 0 <-> c = 0%nat).
Proof.
  intros Hn. apply lt_0_INR in Hn. split.
  - intros E. apply INR_eq. unfold Rdiv in E. apply Rmult_integral in E.
    destruct E as [E|E]; [exact E|].
    pose proof (Rinv_0_lt_compat _ Hn). lra.
  - intros ->. cbn. unfold Rdiv. ring.
Qed.

Lemma accuracy_one_iff (predictions labels : list R) :
  length predictions = length labels ->
  labels <> [] ->
  (accuracy_test predictions labels = Ok 1 <->
   Forall (fun pl => Rabs (fst pl - snd pl) < 1 / 2) (zip predictions labels)).
Proof.
  intros HL Hne. rewrite (accuracy_test_spec _ _ Hne). unfold spec_accuracy.
  assert (0 < length labels)%nat as Hpos
    by (destruct labels; [contradiction|cbn; lia]).
  pose proof (zip_length _ _ predictions labels HL) as Hz.
  set (f := fun pl : R * R => spec_correct (fst pl) (snd pl)).
  transitivity (length (filter f (zip predictions labels))
                = length (zip predictions labels)).
  - rewrite Hz, <- (ratio_one _ _ Hpos).
    split; [intros [= E]; exact E|intros ->; reflexivity].
  - rewrite filter_all. apply Forall_equiv.
    intros [p l]. apply spec_correct_iff.
Qed.

Lemma accuracy_zero_iff (predictions labels : list R) :
  labels <> [] ->
  (accuracy_test predictions labels = Ok 0 <->
   Forall (fun pl => ~ Rabs (fst pl - snd pl) < 1 / 2) (zip predictions labels)).
Proof.
  intros Hne. rewrite (accuracy_test_spec _ _ Hne). unfold spec_accuracy.
  assert (0 < length labels)%nat as Hpos
    by (destruct labels; [contradiction|cbn; lia]).
  set (f := fun pl : R * R => spec_correct (fst pl) (snd pl)).
  transitivity (length (filter f (zip predictions labels)) = 0%nat).
  - rewrite <- (ratio_zero _ _ Hpos).
    split; [intros [= E]; exact E|intros ->; reflexivity].
  - rewrite filter_none. apply Forall_equiv.
    intros [p l]. unfold f. cbn [fst snd].
    rewrite <- spec_correct_iff. symmetry. apply not_true_iff_false.
Qed.

(** X10: on a non-empty list of labels in {0, 1} and equally many
    predictions the accuracy is 1 exactly when every prediction is within
    0.5 of its label, and 0 exactly when none is. *)
Theorem X10_accuracy_extremes (predictions labels : list R) :
  length predictions = length labels ->
  labels <> [] ->
  Forall (fun l => l = 0 \/ l = 1) labels ->
  (accuracy_test predictions labels = Ok 1 <->
   Forall (fun pl => Rabs (fst pl - snd pl) < 1 / 2) (zip predictions labels)) /\
  (accuracy_test predictions labels = Ok 0 <->
   Forall (fun pl => ~ Rabs (fst pl - snd pl) < 1 / 2) (zip predictions labels)).
Proof.
  intros HL Hne _. split.
  - apply accuracy_one_iff; assumption.
  - apply accuracy_zero_iff, Hne.
Qed.

Lemma X10_accuracy_extremes_witness :
  length [9 / 10; 1 / 10] = length [1; 0] /\ [1; 0] <> [] /\
  Forall (fun l => l = 0 \/ l = 1) [1; 0] /\
  (accuracy_test [9 / 10; 1 / 10] [1; 0] = Ok 1 <->
   Forall (fun pl => Rabs (fst pl - snd pl) < 1 / 2)
          (zip [9 / 10; 1 / 10] [1; 0])).
Proof.
  assert (Hne : [1; 0] <> []) by discriminate.
  assert (H01 : Forall (fun l => l = 0 \/ l = 1) [1; 0]).
  { constructor; [right; reflexivity|].
    constructor; [left; reflexivity|constructor]. }
  split; [reflexivity|]. split; [exact Hne|]. split; [exact H01|].
  exact (proj1 (X10_accuracy_extremes [9 / 10; 1 / 10] [1; 0]
                  eq_refl Hne H01)).
Defined.

(* ------------------------------------------------------------------ *)
(** ** The order of the examples, and joining two sets of examples *)
(* ------------------------------------------------------------------ *)

Lemma zip_fst_snd (A B : Type) (l : list (A * B)) :
  zip (map fst l) (map snd l) = l.
Proof.
  induction l as [|[a b] l IH]; cbn [map zip fst snd]; [reflexivity|].
  rewrite IH. reflexivity.
Qed.

Lemma filter_Permutation (A : Type) (f : A -> bool) (l l' : list A) :
  Permutation l l' -> Permutation (filter f l) (filter f l').
Proof.
  induction 1 as [|x l l' H IH|x y l|l l' l'' H1 IH1 H2 IH2]; cbn [filter].
  - constructor.
  - destruct (f x); [constructor|]; exact IH.
  - destruct (f x), (f y); try apply Permutation_refl. apply perm_swap.
  - eapply Permutation_trans; eassumption.
Qed.

(** X11: the accuracy does not depend on the order of the examples:
    rearranging the (prediction, label) pairs of a set leaves the result
    of [accuracy_test] unchanged. *)
Theorem X11_order_of_examples (examples examples' : list (R * R)) :
  Permutation examples examples' ->
  accuracy_test (map fst examples') (map snd examples')
  = accuracy_test (map fst examples) (map snd examples).
Proof.
  intros HP.
  rewrite !accuracy_test_value, !zip_fst_snd, !length_map.
  rewrite <- (Permutation_length HP).
  destruct (length examples =? 0)%nat; [reflexivity|].
  do 3 f_equal. symmetry.
  apply Permutation_length, filter_Permutation, HP.
Qed.

Lemma X11_order_of_examples_witness :
  Permutation [(9 / 10, 1); (1 / 5, 0)] [(1 / 5, 0); (9 / 10, 1)] /\
  accuracy_test (map fst [(1 / 5, 0); (9 / 10, 1)])
                (map snd [(1 / 5, 0); (9 / 10, 1)])
  = accuracy_test (map fst [(9 / 10, 1); (1 / 5, 0)])
                  (map snd [(9 / 10, 1); (1 / 5, 0)]).
Proof.
  assert (H : Permutation [(9 / 10, 1); (1 / 5, 0)] [(1 / 5, 0); (9 / 10, 1)])
    by apply perm_swap.
  split; [exact H|].
  exact (X11_order_of_examples _ _ H).
Defined.

Lemma zip_app (A B : Type) (xs xs' : list A) (ys ys' : list B) :
  length xs = length ys ->
  zip (xs ++ xs') (ys ++ ys') = zip xs ys ++ zip xs' ys'.
Proof.
  revert ys. induction xs as [|x xs IH]; intros [|y ys] H;
    try discriminate H; cbn [app zip]; [reflexivity|].
  f_equal. apply IH. injection H as H. exact H.
Qed.

(** X12: joining two sets of examples.  If the accuracies of two
    non-empty sets are c1 / n1 and c2 / n2, with c1 of the n1 and c2 of
    the n2 examples counted correct, the accuracy of the joined set is
    (c1 + c2) / (n1 + n2): the counts add, the two accuracies are weighted
    by the sizes of the sets. *)
Theorem X12_joined_sets (p1 l1 p2 l2 : list R) :
  length p1 = length l1 -> l1 <> [] -> l2 <> [] ->
  exists c1 c2 : nat,
    (c1 <= length l1)%nat /\ (c2 <= length l2)%nat /\
    accuracy_test p1 l1 = Ok (INR c1 / INR (length l1)) /\
    accuracy_test p2 l2 = Ok (INR c2 / INR (length l2)) /\
    accuracy_test (p1 ++ p2) (l1 ++ l2)
    = Ok (INR (c1 + c2) / INR (length l1 + length l2)).
Proof.
  intros HL H1 H2.
  assert (H12 : l1 ++ l2 <> [])
    by (destruct l1; [contradiction|discriminate]).
  rewrite (accuracy_test_spec _ _ H1), (accuracy_test_spec _ _ H2),
    (accuracy_test_spec _ _ H12).
  unfold spec_accuracy.
  set (f := fun pl : R * R => spec_correct (fst pl) (snd pl)).
  exists (length (filter f (zip p1 l1))), (length (filter f (zip p2 l2))).
  split; [etransitivity; [apply filter_length_le|apply zip_length_le]|].
  split; [etransitivity; [apply filter_length_le|apply zip_length_le]|].
  split; [reflexivity|]. split; [reflexivity|].
  rewrite (zip_app _ _ _ _ _ _ HL), filter_app, !length_app. reflexivity.
Qed.

Lemma X12_joined_sets_witness :
  length [9 / 10] = length [1] /\ [1] <> [] /\ [0; 1] <> [] /\
  exists c1 c2 : nat,
    (c1 <= length [1])%nat /\ (c2 <= length [0; 1])%nat /\
    accuracy_test [9 / 10] [1] = Ok (INR c1 / INR (length [1])) /\
    accuracy_test [1 / 5; 0] [0; 1] = Ok (INR c2 / INR (length [0; 1])) /\
    accuracy_test ([9 / 10] ++ [1 / 5; 0]) ([1] ++ [0; 1])
    = Ok (INR (c1 + c2) / INR (length [1] + length [0; 1])).
Proof.
  assert (H1 : [1] <> []) by discriminate.
  assert (H2 : [0; 1] <> []) by discriminate.
  split; [reflexivity|]. split; [exact H1|]. split; [exact H2|].
  exact (X12_joined_sets [9 / 10] [1] [1 / 5; 0] [0; 1] eq_refl H1 H2).
Defined.

(* ------------------------------------------------------------------ *)
(** ** Loss and accuracy at their best values *)
(* ------------------------------------------------------------------ *)

(** X13: loss and accuracy at their best values.  When the accuracy of a
    set of examples is 1, its loss is at most 1/4: every counted example
    adds at most 1/4 to the sum of squares.  When the loss of as many
    predictions as labels is 0, the accuracy is 1. *)
Theorem X13_loss_bounds_accuracy (predictions labels : list R) :
  (accuracy_test predictions labels = Ok 1 ->
   exists loss, square_loss labels predictions = Ok loss /\
                0 <= loss <= 1 / 4) /\
  (length predictions = length labels ->
   square_loss labels predictions = Ok 0 ->
   accuracy_test predictions labels = Ok 1).
Proof.
  split.
  - intros HA.
    assert (Hne : labels <> []) by (intros ->; discriminate HA).
    assert (0 < length labels)%nat as Hpos
      by (destruct labels; [contradiction|cbn; lia]).
    rewrite (accuracy_test_spec _ _ Hne) in HA. unfold spec_accuracy in HA.
    injection HA as HA. apply (ratio_one _ _ Hpos) in HA.
    pose proof (filter_length_le
                  (fun pl : R * R => spec_correct (fst pl) (snd pl))
                  (zip predictions labels)) as H1.
    pose proof (zip_length_le _ _ predictions labels) as H2.
    assert (Hall : Forall (fun pl => Rabs (fst pl - snd pl) < 1 / 2)
                          (zip predictions labels)).
    { eapply Forall_equiv; [intros pl; symmetry; apply spec_correct_iff|].
      apply filter_all. lia. }
    rewrite (square_loss_mse _ _ Hne). eexists. split; [reflexivity|].
    unfold spec_mse.
    assert (Hq : Forall (fun x => 0 <= x <= 1 / 4)
                   (map (fun pl => (fst pl - snd pl) ^ 2)
                        (zip predictions labels))).
    { apply Forall_map. eapply Forall_impl; [|exact Hall].
      intros [p y] Hc; cbn [fst snd] in *.
      unfold Rabs in Hc. destruct (Rcase_abs (p - y)); nra. }
    apply Rsum_bounds in Hq. rewrite length_map in Hq.
    assert (Hz : length (zip predictions labels) = length labels) by lia.
    rewrite Hz in Hq. apply lt_0_INR in Hpos.
    set (S := Rsum _) in *. set (n := INR (length labels)) in *.
    split.
    + apply Rmult_le_pos; [lra|]. left. apply Rinv_0_lt_compat, Hpos.
    + apply Rmult_le_reg_r with n; [exact Hpos|].
      unfold Rdiv. rewrite Rmult_assoc, Rinv_l by lra. lra.
  - intros HL HS.
    assert (Hne : labels <> []) by (intros ->; discriminate HS).
    assert (0 < INR (length labels)) as Hpos
      by (apply lt_0_INR; destruct labels; [contradiction|cbn; lia]).
    rewrite (square_loss_mse _ _ Hne) in HS. unfold spec_mse in HS.
    injection HS as HS. unfold Rdiv in HS. apply Rmult_integral in HS.
    destruct HS as [HS|HS];
      [|pose proof (Rinv_0_lt_compat _ Hpos); lra].
    apply (Rsum_squares_zero predictions labels HL) in HS. subst predictions.
    apply (accuracy_one_iff labels labels eq_refl Hne).
    clear. induction labels as [|l ls IH]; cbn [zip]; constructor;
      [|exact IH].
    cbn [fst snd]. replace (l - l) with 0 by ring. rewrite Rabs_R0. lra.
Qed.

Lemma X13_loss_bounds_accuracy_witness :
  length [1; 0] = length [1; 0] /\
  square_loss [1; 0] [1; 0] = Ok 0 /\
  accuracy_test [1; 0] [1; 0] = Ok 1.
Proof.
  assert (HS : square_loss [1; 0] [1; 0] = Ok 0).
  { unfold square_loss. cbn [zip fold_left fst snd length Nat.eqb].
    f_equal. cbn [INR]. field. }
  split; [reflexivity|]. split; [exact HS|].
  exact (proj2 (X13_loss_bounds_accuracy [1; 0] [1; 0]) eq_refl HS).
Defined.

(* ------------------------------------------------------------------ *)
(** ** Selecting the two classes, and drawing a batch *)
(* ------------------------------------------------------------------ *)

Lemma take_where (A : Type) (z : list A) (y : list nat) :
  length z = length y ->
  forall pre : list A,
    take (pre ++ z)
         (map fst (filter (fun iy => is_01 (snd iy))
                          (zip (seq (length pre) (length y)) y)))
    = Ok (map fst (filter (fun zy => is_01 (snd zy)) (zip z y))).
Proof.
  revert y. induction z as [|a z IH]; intros [|b y] H pre;
    try discriminate H; [reflexivity|].
  injection H as H. cbn [length seq zip filter snd].
  specialize (IH y H (pre ++ [a])).
  rewrite <- app_assoc, length_app, Nat.add_1_r in IH. cbn [app] in IH.
  destruct (is_01 b); cbn [map fst]; [|exact IH].
  unfold take in *. cbn [list_comp]. unfold getitem at 1.
  rewrite nth_error_app2, Nat.sub_diag by lia. cbn [nth_error rbind].
  rewrite IH. reflexivity.
Qed.

Lemma kept_labels (A : Type) (x : list A) (y : list nat) :
  length x = length y ->
  map fst (filter (fun zy => is_01 (snd zy)) (zip y y))
  = map snd (filter (fun xy => is_01 (snd xy)) (zip x y)).
Proof.
  revert y. induction x as [|a x IH]; intros [|b y] H; try discriminate H;
    [reflexivity|].
  injection H as H. cbn [zip filter snd].
  destruct (is_01 b); cbn [map fst snd]; rewrite (IH y H); reflexivity.
Qed.

Lemma is_01_iff (l : nat) : is_01 l = true <-> l = 0%nat \/ l = 1%nat.
Proof.
  unfold is_01. rewrite orb_true_iff, !Nat.eqb_eq. reflexivity.
Qed.

(** X14: selecting the classes 0 and 1.  For as many images as labels the
    cell keeps exactly the (image, label) pairs whose label is 0 or 1, in
    their original order and still paired; so the kept lists have the same
    length and every kept label is 0 or 1. *)
Theorem X14_filter_classes (A : Type) (x_train : list A) (y_train : list nat) :
  length x_train = length y_train ->
  exists X_train Y_train,
    filter_classes x_train y_train = Ok (X_train, Y_train) /\
    zip X_train Y_train
    = filter (fun xy => is_01 (snd xy)) (zip x_train y_train) /\
    length X_train = length Y_train /\
    Forall (fun l => l = 0%nat \/ l = 1%nat) Y_train.
Proof.
  intros H. unfold filter_classes, where_01.
  pose proof (take_where A x_train y_train H []) as EX.
  pose proof (take_where nat y_train y_train eq_refl []) as EY.
  cbn [app length] in EX, EY. rewrite EX, EY. cbn [rbind].
  rewrite (kept_labels A x_train y_train H).
  set (kept := filter (fun xy => is_01 (snd xy)) (zip x_train y_train)).
  exists (map fst kept), (map snd kept).
  split; [reflexivity|]. split; [apply zip_fst_snd|].
  split; [rewrite !length_map; reflexivity|].
  apply Forall_map, Forall_forall. intros xy Hin.
  apply filter_In in Hin. apply is_01_iff, Hin.
Qed.

Lemma X14_filter_classes_witness :
  length [10; 11; 12; 13]%nat = length [1; 7; 0; 3]%nat /\
  exists X_train Y_train,
    filter_classes [10; 11; 12; 13]%nat [1; 7; 0; 3]%nat
    = Ok (X_train, Y_train) /\
    zip X_train Y_train
    = filter (fun xy => is_01 (snd xy))
             (zip [10; 11; 12; 13]%nat [1; 7; 0; 3]%nat) /\
    length X_train = length Y_train /\
    Forall (fun l => l = 0%nat \/ l = 1%nat) Y_train.
Proof.
  split; [reflexivity|].
  exact (X14_filter_classes nat [10; 11; 12; 13]%nat [1; 7; 0; 3]%nat eq_refl).
Defined.

(** The kept pairs on a small input. *)
Example filter_classes_example :
  filter_classes [10; 11; 12; 13]%nat [1; 7; 0; 3]%nat
  = Ok ([10; 12]%nat, [1; 0]%nat).
Proof. reflexivity. Qed.

Lemma take_accepts (A : Type) (x : list A) (idx : list nat) :
  Forall (fun i => (i < length x)%nat) idx ->
  exists r, take x idx = Ok r /\
            Forall2 (fun i a => nth_error x i = Some a) idx r.
Proof.
  unfold take. induction 1 as [|i idx Hi Hidx (r & E & F)]; cbn [list_comp].
  - exists []. split; [reflexivity|constructor].
  - unfold getitem at 1.
    destruct (nth_error x i) as [a|] eqn:Ea;
      [|apply nth_error_None in Ea; lia].
    exists (a :: r). cbn [rbind]. rewrite E. split; [reflexivity|].
    constructor; assumption.
Qed.

Lemma take_raises (A : Type) (x : list A) (idx : list nat) :
  Exists (fun i => (length x <= i)%nat) idx -> take x idx = Err IndexError.
Proof.
  unfold take. induction idx as [|i idx IH]; intros H; [inversion H|].
  cbn [list_comp]. unfold getitem at 1.
  destruct (nth_error x i) as [a|] eqn:Ea; [|reflexivity].
  cbn [rbind]. rewrite IH; [reflexivity|].
  inversion H; subst; [|assumption].
  assert (nth_error x i = None) by (apply nth_error_None; assumption).
  congruence.
Qed.

Lemma nth_error_zip (A B : Type) (x : list A) (y : list B) (i : nat) (a : A)
  (b : B) :
  nth_error x i = Some a -> nth_error y i = Some b -> In (a, b) (zip x y).
Proof.
  revert x y. induction i as [|i IH]; intros [|a' x] [|b' y] Ha Hb;
    try discriminate; cbn [nth_error zip In] in *.
  - left. congruence.
  - right. apply IH; assumption.
Qed.

(** X15: drawing a batch.  For as many training vectors as labels and
    indices that are all below that number, the batch has one feature
    vector and one label per index, and every (vector, label) pair of the
    batch is a pair of the training set: a label never travels with
    another example's vector.  An index at or beyond the size of the
    training set raises IndexError. *)
Theorem X15_draw_batch (A B : Type) (X_train : list A) (Y_train : list B)
  (batch_index : list nat) :
  length X_train = length Y_train ->
  (Forall (fun i => (i < length X_train)%nat) batch_index ->
   exists X_batch Y_batch,
     draw_batch X_train Y_train batch_index = Ok (X_batch, Y_batch) /\
     length X_batch = length batch_index /\
     length Y_batch = length batch_index /\
     Forall (fun xy => In xy (zip X_train Y_train)) (zip X_batch Y_batch))
  /\
  (Exists (fun i => (length X_train <= i)%nat) batch_index ->
   draw_batch X_train Y_train batch_index = Err IndexError).
Proof.
  intros HL. unfold draw_batch. split.
  - intros Hi.
    destruct (take_accepts A X_train batch_index Hi) as (Xb & EX & FX).
    rewrite HL in Hi.
    destruct (take_accepts B Y_train batch_index Hi) as (Yb & EY & FY).
    exists Xb, Yb. rewrite EX, EY. cbn [rbind].
    split; [reflexivity|].
    split; [symmetry; eapply Forall2_length; eassumption|].
    split; [symmetry; eapply Forall2_length; eassumption|].
    clear EX EY Hi. revert Yb FY.
    induction FX as [|i a idx Xb Ha FX IH]; intros Yb FY;
      inversion FY as [|i' b idx' Yb' Hb FY']; subst; cbn [zip].
    + constructor.
    + constructor; [eapply nth_error_zip; eassumption|apply IH, FY'].
  - intros He. rewrite (take_raises A X_train batch_index He). reflexivity.
Qed.

Lemma X15_draw_batch_witness :
  length [10; 11; 12]%nat = length [1; 0; 1]%nat /\
  Forall (fun i => (i < length [10; 11; 12]%nat)%nat) [2; 0; 2]%nat /\
  exists X_batch Y_batch,
    draw_batch [10; 11; 12]%nat [1; 0; 1]%nat [2; 0; 2]%nat
    = Ok (X_batch, Y_batch) /\
    length X_batch = length [2; 0; 2]%nat /\
    length Y_batch = length [2; 0; 2]%nat /\
    Forall (fun xy => In xy (zip [10; 11; 12]%nat [1; 0; 1]%nat))
           (zip X_batch Y_batch).
Proof.
  assert (Hi : Forall (fun i => (i < length [10; 11; 12]%nat)%nat)
                      [2; 0; 2]%nat)
    by (repeat constructor).
  split; [reflexivity|]. split; [exact Hi|].
  exact (proj1 (X15_draw_batch nat nat [10; 11; 12]%nat [1; 0; 1]%nat
                  [2; 0; 2]%nat eq_refl) Hi).
Defined.

(* ------------------------------------------------------------------ *)
(** ** The training cell and the test cell *)
(* ------------------------------------------------------------------ *)

Section TrainingLoop.

Variable rng : Type.
Variable randint : nat -> nat -> nat -> rng -> result (list nat * rng).
Variable optimizer : Type.
Variable step_and_cost :
  optimizer -> (list R -> result R) -> list R ->
  result (optimizer * (list R * R)).
Variable X_train : list (list R).
Variable Y_train : list R.

Lemma training_step_history (it : nat) (s s' : training rng optimizer) :
  training_step rng randint optimizer step_and_cost X_train Y_train it s
  = Ok s' ->
  exists cost_new,
    t_loss_history s' = t_loss_history s ++ [cost_new] /\
    t_printed s'
    = t_printed s ++ (if (it mod 10 =? 0)%nat then [(it, cost_new)] else []).
Proof.
  unfold training_step. generalize (it mod 10 =? 0)%nat as tenth.
  intros tenth.
  destruct (randint 0 (length X_train) batch_size (t_rng s)) as [[idx g]|e];
    cbn [rbind fst snd]; [|discriminate].
  destruct (draw_batch X_train Y_train idx) as [[Xb Yb]|e];
    cbn [rbind fst snd]; [|discriminate].
  destruct (step_and_cost (t_opt s) (fun v => cost v Xb Yb) (t_params s))
    as [[o [p c]]|e]; cbn [rbind fst snd]; [|discriminate].
  intros [= <-]. exists c. cbn [t_loss_history t_printed].
  split; [reflexivity|].
  destruct tenth; [reflexivity|]. rewrite app_nil_r. reflexivity.
Qed.

Lemma training_loop_history (its : list nat) :
  forall s s' : training rng optimizer,
    training_loop rng randint optimizer step_and_cost X_train Y_train its s
    = Ok s' ->
    exists losses,
      length losses = length its /\
      t_loss_history s' = t_loss_history s ++ losses /\
      t_printed s'
      = t_printed s
        ++ filter (fun il => (fst il mod 10 =? 0)%nat) (zip its losses).
Proof.
  induction its as [|it its IH]; intros s s'; cbn [training_loop].
  - intros [= <-]. exists []. rewrite !app_nil_r. repeat split.
  - destruct (training_step rng randint optimizer step_and_cost
                            X_train Y_train it s) as [s1|e] eqn:E1;
      cbn [rbind]; [|discriminate].
    intros E2.
    destruct (training_step_history it s s1 E1) as (c & Hh & Hp).
    destruct (IH s1 s' E2) as (ls & HL & Hh' & Hp').
    exists (c :: ls). cbn [length zip filter fst].
    split; [congruence|]. split.
    + rewrite Hh', Hh, <- app_assoc. reflexivity.
    + rewrite Hp', Hp, <- app_assoc.
      destruct (it mod 10 =? 0)%nat; reflexivity.
Qed.

End TrainingLoop.

Lemma zip_filter_fst (A : Type) (f : nat -> bool) (its : list nat)
  (ls : list A) :
  length ls = length its ->
  map fst (filter (fun il => f (fst il)) (zip its ls)) = filter f its.
Proof.
  revert ls. induction its as [|it its IH]; intros [|l ls] H;
    try discriminate H; [reflexivity|].
  injection H as H. cbn [zip filter fst].
  destruct (f it); cbn [map fst]; rewrite (IH ls H); reflexivity.
Qed.

Lemma zip_seq_nth_error (A : Type) (ls : list A) (start i : nat) (a : A) :
  In (i, a) (zip (seq start (length ls)) ls) ->
  nth_error ls (i - start) = Some a /\ (start <= i)%nat.
Proof.
  revert start. induction ls as [|l ls IH]; intros start H;
    cbn [length seq zip In] in H; [contradiction|].
  destruct H as [[= <- <-]|H].
  - rewrite Nat.sub_diag. split; [reflexivity|lia].
  - apply IH in H. destruct H as [H Hle].
    replace (i - start)%nat with (S (i - S start)) by lia.
    split; [exact H|lia].
Qed.

(** X16: the training cell.  Whatever the random generator and the
    optimizer do, a run that completes has made exactly 100 optimizer
    steps: loss_history holds 100 losses, one per iteration in order, and
    the cell has printed the iterations 0, 10, ..., 90, each with the loss
    that loss_history holds at that iteration. *)
Theorem X16_training_history
  (rng : Type) (randint : nat -> nat -> nat -> rng -> result (list nat * rng))
  (optimizer : Type)
  (step_and_cost : optimizer -> (list R -> result R) -> list R ->
                   result (optimizer * (list R * R)))
  (X_train : list (list R)) (Y_train : list R)
  (g : rng) (opt : optimizer) (params : list R)
  (s : training rng optimizer) :
  train rng randint optimizer step_and_cost X_train Y_train g opt params = Ok s ->
  length (t_loss_history s) = 100%nat /\
  map fst (t_printed s) = [0; 10; 20; 30; 40; 50; 60; 70; 80; 90]%nat /\
  Forall (fun ic => nth_error (t_loss_history s) (fst ic) = Some (snd ic))
         (t_printed s).
Proof.
  unfold train. intros H.
  apply training_loop_history in H. destruct H as (ls & HL & Hh & Hp).
  cbn [t_loss_history t_printed app] in Hh, Hp. rewrite Hh, Hp.
  change (range 0 steps 1) with (seq 0 100) in *. rewrite length_seq in HL.
  split; [exact HL|]. split.
  - rewrite (zip_filter_fst R (fun it => (it mod 10 =? 0)%nat))
      by (rewrite length_seq; exact HL).
    reflexivity.
  - apply Forall_forall. intros [i c] Hin. apply filter_In in Hin.
    destruct Hin as [Hin _]. rewrite <- HL in Hin.
    apply zip_seq_nth_error in Hin. rewrite Nat.sub_0_r in Hin. apply Hin.
Qed.

Lemma X16_training_history_witness :
  exists s,
    train unit lowest_randint unit idle_step_and_cost [one_hot] [1] tt tt
          zero_params = Ok s /\
    length (t_loss_history s) = 100%nat /\
    map fst (t_printed s) = [0; 10; 20; 30; 40; 50; 60; 70; 80; 90]%nat /\
    Forall (fun ic => nth_error (t_loss_history s) (fst ic) = Some (snd ic))
           (t_printed s).
Proof.
  destruct (train unit lowest_randint unit idle_step_and_cost [one_hot] [1]
                  tt tt zero_params) as [s|e] eqn:E.
  - exists s. split; [reflexivity|].
    exact (X16_training_history unit lowest_randint unit idle_step_and_cost
             [one_hot] [1] tt tt zero_params s E).
  - exfalso. revert E. unfold train. generalize (range 0 steps 1) as its.
    generalize ({| t_rng := tt; t_opt := tt; t_params := zero_params;
                   t_loss_history := []; t_printed := [] |}
                : training unit unit) as s0.
    intros s0 its. revert s0.
    induction its as [|it its IH]; intros s0; cbn [training_loop];
      [discriminate|].
    unfold training_step, lowest_randint, idle_step_and_cost, draw_batch.
    cbn [rbind fst snd batch_size repeat take list_comp getitem nth_error].
    apply IH.
Defined.

(** X17: the test cell.  If the first test vector is not of length 256
    it raises the invalid-input error, whatever the parameters are; if the
    first test vector is of ordinary size and there are fewer than 45
    parameters it raises IndexError.  With at least 45 parameters, a test
    vector that is not of length 256 or has norm zero raises the
    invalid-input error; test vectors of ordinary size with no labels raise
    ZeroDivisionError, and with a non-empty list of labels in {0, 1} they
    give one prediction per test vector and a percentage in [0, 100], one
    hundred times the fraction of examples counted correct. *)
Theorem X17_test_accuracy_outcome
  (params : list R) (X_test : list (list R)) (Y_test : list R) :
  (forall x rest, X_test = x :: rest -> length x <> 256%nat ->
   test_accuracy params X_test Y_test = Err InvalidInputError) /\
  (forall x rest, X_test = x :: rest -> well_scaled x ->
   (length params < 45)%nat ->
   test_accuracy params X_test Y_test = Err IndexError) /\
  ((45 <= length params)%nat -> Exists (fun x => ~ valid_features x) X_test ->
   test_accuracy params X_test Y_test = Err InvalidInputError) /\
  ((45 <= length params)%nat -> Forall well_scaled X_test -> Y_test = [] ->
   test_accuracy params X_test Y_test = Err ZeroDivisionError) /\
  ((45 <= length params)%nat -> Forall well_scaled X_test -> Y_test <> [] ->
   Forall (fun l => l = 0 \/ l = 1) Y_test ->
   exists predictions,
     list_comp (fun x => QCNN x params) X_test = Ok predictions /\
     length predictions = length X_test /\
     test_accuracy params X_test Y_test
     = Ok (spec_accuracy predictions Y_test * 100) /\
     0 <= spec_accuracy predictions Y_test * 100 <= 100).
Proof.
  unfold test_accuracy. split; [|split; [|split; [|split]]].
  - intros x rest -> Hx. rewrite (predictions_rejects_head params x rest Hx).
    reflexivity.
  - intros x rest -> Hx HP.
    rewrite (predictions_raises params x rest (proj1 Hx) HP). reflexivity.
  - intros HP HX. rewrite (predictions_rejects params X_test HP HX).
    reflexivity.
  - intros HP HX ->. apply Forall_well_scaled_valid in HX.
    destruct (predictions_accepts params X_test HP HX) as (ps & -> & _ & _).
    reflexivity.
  - intros HP HX HY _. apply Forall_well_scaled_valid in HX.
    destruct (predictions_accepts params X_test HP HX) as (ps & E & L & _).
    exists ps. rewrite E. cbn [rbind].
    rewrite (accuracy_test_spec ps Y_test HY). cbn [rbind].
    pose proof (spec_accuracy_range ps Y_test HY).
    repeat split; try assumption; lra.
Qed.

Lemma X17_test_accuracy_outcome_witness :
  (45 <= length zero_params)%nat /\ Forall well_scaled [one_hot] /\
  [1] <> [] /\ Forall (fun l => l = 0 \/ l = 1) [1] /\
  exists predictions,
    list_comp (fun x => QCNN x zero_params) [one_hot] = Ok predictions /\
    length predictions = length [one_hot] /\
    test_accuracy zero_params [one_hot] [1]
    = Ok (spec_accuracy predictions [1] * 100) /\
    0 <= spec_accuracy predictions [1] * 100 <= 100.
Proof.
  assert (HP : (45 <= length zero_params)%nat) by (cbn; lia).
  assert (HX : Forall well_scaled [one_hot]).
  { constructor; [apply one_hot_well_scaled|constructor]. }
  assert (HY : [1] <> []) by discriminate.
  assert (H01 : Forall (fun l => l = 0 \/ l = 1) [1])
    by (constructor; [right; reflexivity|constructor]).
  split; [exact HP|]. split; [exact HX|]. split; [exact HY|].
  split; [exact H01|].
  exact (proj2 (proj2 (proj2 (proj2
           (X17_test_accuracy_outcome zero_params [one_hot] [1]))))
           HP HX HY H01).
Defined.
